(** * Bloch-sphere qubit animations (animated/qubits.py)

    A shallow embedding of [qubit] and of the twelve scene classes of
    [animated/qubits.py], in exact real arithmetic.  The animation
    framework's primitives the script calls (vector rotation about an
    axis, the [Arc] glyph, [wait]/[play]) are modelled by their geometric
    meaning; everything computed by the script itself (the start point,
    the frame [x, y, z], the arc glyph's placement, the label positions,
    the emitted timeline, the scene table) follows the source line by
    line. *)

From Stdlib Require Import Reals Lra Psatz RNsatz String List Bool.
Import ListNotations.

Local Open Scope R_scope.
Local Open Scope string_scope.

Set Warnings "-register-all".

(** ** Three-dimensional vectors ([np.array] of length three) *)

Module Vec3.

Record vec3 : Type := mk { cx : R; cy : R; cz : R }.

Definition zero : vec3 := mk 0 0 0.

Definition add (u v : vec3) : vec3 :=
  mk (cx u + cx v) (cy u + cy v) (cz u + cz v).

Definition sub (u v : vec3) : vec3 :=
  mk (cx u - cx v) (cy u - cy v) (cz u - cz v).

Definition scale (k : R) (v : vec3) : vec3 :=
  mk (k * cx v) (k * cy v) (k * cz v).

(** [np.dot] *)
Definition dot (u v : vec3) : R :=
  cx u * cx v + cy u * cy v + cz u * cz v.

(** [np.cross] *)
Definition cross (u v : vec3) : vec3 :=
  mk (cy u * cz v - cz u * cy v)
     (cz u * cx v - cx u * cz v)
     (cx u * cy v - cy u * cx v).

(** [np.linalg.norm] *)
Definition norm (v : vec3) : R := sqrt (dot v v).

(** A 3x3 matrix given by its rows, as in [[x, y, z]]. *)
Record mat3 : Type := rows { row1 : vec3; row2 : vec3; row3 : vec3 }.

Definition mat_vec (M : mat3) (v : vec3) : vec3 :=
  mk (dot (row1 M) v) (dot (row2 M) v) (dot (row3 M) v).

Definition transpose (M : mat3) : mat3 :=
  rows (mk (cx (row1 M)) (cx (row2 M)) (cx (row3 M)))
       (mk (cy (row1 M)) (cy (row2 M)) (cy (row3 M)))
       (mk (cz (row1 M)) (cz (row2 M)) (cz (row3 M))).

Definition mat_mul (A B : mat3) : mat3 :=
  let Bt := transpose B in
  rows (mat_vec Bt (row1 A)) (mat_vec Bt (row2 A)) (mat_vec Bt (row3 A)).

Definition identity : mat3 := rows (mk 1 0 0) (mk 0 1 0) (mk 0 0 1).

Definition det (M : mat3) : R := dot (row1 M) (cross (row2 M) (row3 M)).

(** Proper rotation matrices: orthogonal with determinant one. *)
Definition is_rotation (M : mat3) : Prop :=
  mat_mul M (transpose M) = identity /\ det M = 1.

(** Two vectors are parallel when their cross product vanishes. *)
Definition parallel (u v : vec3) : Prop := cross u v = zero.

End Vec3.

Import Vec3.

(** ** The framework's constants and primitives *)

Module Manim.

Definition TAU : R := 2 * PI.
Definition DEGREES : R := TAU / 360.

Definition RIGHT : vec3 := mk 1 0 0.
Definition DOWN : vec3 := mk 0 (-1) 0.

(** [normalize]: the vector over its norm when the norm is positive, the
    zero vector otherwise. *)
Definition normalize (v : vec3) : vec3 :=
  if Rlt_dec 0 (norm v) then scale (/ norm v) v else zero.

(** [rotation_matrix angle axis]: the rotation by [angle] (radians,
    right-hand rule) about the normalized [axis].  For a zero [axis] the
    formula below gives [cos angle] times the identity, which is the
    framework's result only when [angle] is a multiple of a full turn;
    nothing below uses a zero axis with another angle. *)
Definition rotation_matrix (angle : R) (axis : vec3) : mat3 :=
  let k := normalize axis in
  let c := cos angle in
  let s := sin angle in
  rows (mk (c + cx k * cx k * (1 - c))
           (cx k * cy k * (1 - c) - cz k * s)
           (cx k * cz k * (1 - c) + cy k * s))
       (mk (cy k * cx k * (1 - c) + cz k * s)
           (c + cy k * cy k * (1 - c))
           (cy k * cz k * (1 - c) - cx k * s))
       (mk (cz k * cx k * (1 - c) - cy k * s)
           (cz k * cy k * (1 - c) + cx k * s)
           (c + cz k * cz k * (1 - c))).

(** [mob.rotate_about_origin(angle, axis=axis)] on one point of [mob]. *)
Definition rotate_about_origin (angle : R) (axis : vec3) (p : vec3) : vec3 :=
  mat_vec (rotation_matrix angle axis) p.

(** [mob.shift(d)] on one point of [mob]. *)
Definition shift (d : vec3) (p : vec3) : vec3 := add p d.

(** The point at arc length parameter [s] of [Arc(radius, start_angle, _)]:
    a circular arc in the horizontal plane centred at the origin. *)
Definition Arc_point (radius start_angle s : R) : vec3 :=
  mk (radius * cos (start_angle + s)) (radius * sin (start_angle + s)) 0.

(** The tip (last point) of [Arc(radius, start_angle, angle)]. *)
Definition Arc_end (radius start_angle angle : R) : vec3 :=
  Arc_point radius start_angle angle.

(** What [Rotation.from_matrix(M).as_rotvec()] returns: a vector whose
    direction is the rotation axis of [M] and whose norm is its rotation
    angle, so that rotating by that angle about it acts as [M]. *)
Definition is_rotvec_of (rotvec : vec3) (M : mat3) : Prop :=
  forall v, rotate_about_origin (norm rotvec) rotvec v = mat_vec M v.

End Manim.

Import Manim.

(** ** Module-level values of the script *)

Definition Xaxis : vec3 := mk 1 0 0.
Definition Yaxis : vec3 := mk 0 1 0.
Definition Zaxis : vec3 := mk 0 0 1.

(** Camera angles; [theta] is also used to place the coefficient label. *)
Definition phi : R := 75 * DEGREES.
Definition theta : R := 30 * DEGREES.

(** ** [qubit] *)

(** The arguments of one call of [qubit] (the scene object [gl] apart). *)
Record args : Type := Args {
  start_point : R * R;
  rotate_axis : vec3;
  rotate_angle : R;
  show_basis : bool;
  start_name : string;
  end_name : string;
  end_coef : option string
}.

(** The [MathTex] labels [qubit] may build, by the name of the variable
    that holds them. *)
Inductive label : Type :=
| state_psi | state_psi_end | state_psi_coef | state_0 | state_1.

Inductive animation : Type :=
| IncrementValue (delta : R)          (* [rot.animate.increment_value(delta)] *)
| Transform (mob target : label)
| Create (mob : label)
| AnimationGroup (anims : list animation).

(** What [qubit] asks of the scene, in order. *)
Inductive action : Type :=
| Wait (duration : R)
| Play (anim : animation) (run_time : R).

(** The state the timeline acts on: the value tracker [rot] and the time
    played so far. *)
Record stage : Type := Stage { rot : R; clock : R }.

Section Qubit.

(** The rendered width of a [MathTex] of given source text at font size
    108, which the typesetting back end decides. *)
Variable tex_width : string -> R.

Variable a : args.

(** Lines 24-28, with [np.cos] and [np.sin] read as the real cosine and
    sine. *)
Definition point : vec3 :=
  mk (cos (fst (start_point a) * DEGREES) * sin (snd (start_point a) * DEGREES))
     (sin (fst (start_point a) * DEGREES) * sin (snd (start_point a) * DEGREES))
     (cos (snd (start_point a) * DEGREES)).

Definition pole_0 : vec3 := mk 0 0 1.
Definition pole_1 : vec3 := mk 0 0 (-1).

(** Lines 40-53: the tip of the arrow [vec] once its updater has run with
    the tracker at [rot_value]. *)
Definition vec_end (rot_value : R) : vec3 :=
  rotate_about_origin (rot_value * DEGREES) (rotate_axis a) point.

(** Lines 55-57. *)
Definition z : vec3 := rotate_axis a.
Definition x_unscaled : vec3 := sub point (scale (dot point z) z).
Definition r : R := norm x_unscaled.

(** Line 58, [x /= r]: no test of [r] precedes the division, and the
    quotient is a real vector only for a nonzero [r]; [None] stands for the
    undefined quotient. *)
Definition divide (v : vec3) (d : R) : option vec3 :=
  if Req_dec_T d 0 then None else Some (scale (/ d) v).

Definition x : option vec3 := divide x_unscaled r.

(** Line 59. *)
Definition y : option vec3 := option_map (cross z) x.

(** Line 60: the matrix [[x, y, z]] handed to [R.from_matrix]. *)
Definition frame : option mat3 :=
  match x, y with
  | Some vx, Some vy => Some (rows vx vy z)
  | _, _ => None
  end.

(** Line 61. *)
Definition angle (rotvec : vec3) : R := - norm rotvec.

(** Lines 63-80: the tip of the arc glyph built for a swept angle,
    [Arc(r, 0, swept).shift([0, 0, point.z]).rotate_about_origin(angle, rotvec)]. *)
Definition arc_tip (rotvec : vec3) (swept : R) : vec3 :=
  rotate_about_origin (angle rotvec) rotvec
    (shift (mk 0 0 (dot point z)) (Arc_end r 0 swept)).

(** The arc's updater with the tracker at [rot_value]. *)
Definition arc_tip_at (rotvec : vec3) (rot_value : R) : vec3 :=
  arc_tip rotvec (rot_value * DEGREES).

(** Lines 92-99: where [state_psi_end] is placed. *)
Definition state_psi_end_position : vec3 :=
  rotate_about_origin (rotate_angle a * DEGREES) (rotate_axis a)
    (scale 1.25 point).

(** Lines 112-114: where [state_psi] starts. *)
Definition state_psi_start_position : vec3 := scale 1.25 point.

(** Lines 115-122: where the updater of [state_psi] puts it with the
    tracker at [rot_value]. *)
Definition state_psi_position (rot_value : R) : vec3 :=
  rotate_about_origin (rot_value * DEGREES) (rotate_axis a)
    (scale 1.25 point).

(** Lines 135-139: where [state_psi_coef] is placed, for coefficient text
    [coef]. *)
Definition state_psi_coef_position (coef : string) : vec3 :=
  shift
    (scale ((tex_width (end_name a) + tex_width coef) * 0.13)
       (add (scale (sin theta) RIGHT) (scale (cos theta) DOWN)))
    state_psi_end_position.

(** The text of each label, when [qubit] builds it. *)
Definition label_text (l : label) : option string :=
  match l with
  | state_psi => Some (start_name a)
  | state_psi_end => Some (end_name a)
  | state_psi_coef => end_coef a
  | state_0 => if show_basis a then Some "|0\rangle" else None
  | state_1 => if show_basis a then Some "|1\rangle" else None
  end.

(** The final position of each label that [qubit] builds. *)
Definition label_position (l : label) : option vec3 :=
  match l with
  | state_psi => Some (state_psi_position (rotate_angle a))
  | state_psi_end => Some state_psi_end_position
  | state_psi_coef => option_map state_psi_coef_position (end_coef a)
  | state_0 => if show_basis a then Some (scale 1.25 pole_0) else None
  | state_1 => if show_basis a then Some (scale 1.25 pole_1) else None
  end.

(** Line 131. *)
Definition state_rot : animation := IncrementValue (rotate_angle a).

(** Lines 133-146. *)
Definition state_anim : animation :=
  match end_coef a with
  | Some _ =>
      AnimationGroup [Transform state_psi state_psi_end; Create state_psi_coef]
  | None => Transform state_psi state_psi_end
  end.

(** Lines 148-151: the timeline [qubit] emits. *)
Definition qubit : list action :=
  [Wait 0.5; Play state_rot 1.5; Play state_anim 0.5; Wait 0.5].

End Qubit.

(** ** Running a timeline *)

(** The tracker's value once an animation has completed. *)
Fixpoint rot_after (an : animation) (v : R) : R :=
  match an with
  | IncrementValue delta => v + delta
  | Transform _ _ => v
  | Create _ => v
  | AnimationGroup anims => fold_right rot_after v anims
  end.

Definition step (st : stage) (act : action) : stage :=
  match act with
  | Wait d => Stage (rot st) (clock st + d)
  | Play an t => Stage (rot_after an (rot st)) (clock st + t)
  end.

Definition run (acts : list action) (st : stage) : stage :=
  fold_left step acts st.

(** Line 23: [rot = ValueTracker(0)]. *)
Definition initial : stage := Stage 0 0.

Definition duration (act : action) : R :=
  match act with
  | Wait d => d
  | Play _ t => t
  end.

Definition total_duration (acts : list action) : R :=
  fold_right Rplus 0 (map duration acts).

(** Animations that move the tracker, and animations that swap a label. *)
Fixpoint moves_tracker (an : animation) : bool :=
  match an with
  | IncrementValue _ => true
  | Transform _ _ => false
  | Create _ => false
  | AnimationGroup anims => existsb moves_tracker anims
  end.

Fixpoint swaps_label (an : animation) : bool :=
  match an with
  | IncrementValue _ => false
  | Transform mob target =>
      match mob, target with
      | state_psi, state_psi_end => true
      | _, _ => false
      end
  | Create _ => false
  | AnimationGroup anims => existsb swaps_label anims
  end.

(** The kind of each entry of a timeline, with its length in seconds. *)
Inductive slot : Type :=
| wait_slot (d : R)
| rotation_slot (d : R)
| label_slot (d : R)
| other_slot (d : R).

Definition slot_of (act : action) : slot :=
  match act with
  | Wait d => wait_slot d
  | Play an t =>
      if moves_tracker an then rotation_slot t
      else if swaps_label an then label_slot t
      else other_slot t
  end.

(** ** The scene classes *)

Module Scenes.

Inductive scene : Type :=
| X0 | X1 | X | Y0 | Y1 | Y | Z0 | Z1 | Z | H0 | H1 | H.

Definition all : list scene :=
  [X0; X1; X; Y0; Y1; Y; Z0; Z1; Z; H0; H1; H].

(** The call of [qubit] each class's [construct] makes (lines 154-208). *)
Definition qubit_call (s : scene) : args :=
  match s with
  | X0 => Args (0, 0) Xaxis 180 false "|0\rangle" "|1\rangle" None
  | X1 => Args (0, 180) Xaxis 180 false "|1\rangle" "|0\rangle" None
  | X => Args (45, 45) Xaxis 180 true "|\psi\rangle" "|\psi\rangle" None
  | Y0 => Args (0, 0) Yaxis 180 false "|0\rangle" "|1\rangle" (Some "i")
  | Y1 => Args (0, 180) Yaxis 180 false "|1\rangle" "|0\rangle" (Some "-i")
  | Y => Args (45, 45) Yaxis 180 true "|\psi\rangle" "|\psi\rangle" None
  | Z0 => Args (0, 0) Zaxis 180 false "|0\rangle" "|0\rangle" None
  | Z1 => Args (0, 180) Zaxis 180 false "|1\rangle" "|1\rangle" (Some "-")
  | Z => Args (45, 45) Zaxis 180 true "|\psi\rangle" "|\psi\rangle" None
  | H0 =>
      Args (0, 0) (mk (1 / sqrt 2) 0 (1 / sqrt 2)) 180 false
        "|0\rangle" "|+\rangle" None
  | H1 =>
      Args (0, 180) (mk (1 / sqrt 2) 0 (1 / sqrt 2)) 180 false
        "|1\rangle" "|-\rangle" None
  | H =>
      Args (45, 45) (mk (1 / sqrt 2) 0 (1 / sqrt 2)) 180 true
        "|\psi\rangle" "|\psi\rangle" None
  end.

(** The calls of [qubit] made by running [construct], in order: the body
    of every [construct] is that single call. *)
Definition construct (s : scene) : list args := [qubit_call s].

(** The gate a scene class is named after. *)
Inductive gate : Type := PauliX | PauliY | PauliZ | Hadamard.

Definition gate_of (s : scene) : gate :=
  match s with
  | X0 | X1 | X => PauliX
  | Y0 | Y1 | Y => PauliY
  | Z0 | Z1 | Z => PauliZ
  | H0 | H1 | H => Hadamard
  end.

(** The Bloch-sphere axis of each gate. *)
Definition gate_axis (g : gate) : vec3 :=
  match g with
  | PauliX => mk 1 0 0
  | PauliY => mk 0 1 0
  | PauliZ => mk 0 0 1
  | Hadamard => mk (1 / sqrt 2) 0 (1 / sqrt 2)
  end.

(** The scenes that start from a basis state. *)
Definition basis_scenes : list scene := [X0; X1; Y0; Y1; Z0; Z1; H0; H1].

End Scenes.

(** The Bloch-sphere position of the states the labels name: the poles as
    lines 38-39 and 127-128 place them, and the two equatorial states
    on the first axis. *)
Definition bloch_position (name : string) : option vec3 :=
  if String.eqb name "|0\rangle" then Some (mk 0 0 1)
  else if String.eqb name "|1\rangle" then Some (mk 0 0 (-1))
  else if String.eqb name "|+\rangle" then Some (mk 1 0 0)
  else if String.eqb name "|-\rangle" then Some (mk (-1) 0 0)
  else None.

(** ** Reading a timeline *)

Definition is_rotation_play (act : action) : bool :=
  match act with
  | Wait _ => false
  | Play an _ => moves_tracker an
  end.

Definition is_label_play (act : action) : bool :=
  match act with
  | Wait _ => false
  | Play an _ => swaps_label an
  end.

(** The labels an animation acts on. *)
Fixpoint animated_labels (an : animation) : list label :=
  match an with
  | IncrementValue _ => []
  | Transform mob target => [mob; target]
  | Create mob => [mob]
  | AnimationGroup anims => flat_map animated_labels anims
  end.

(** The animations handed to [play], in order. *)
Fixpoint plays (acts : list action) : list animation :=
  match acts with
  | [] => []
  | Wait _ :: rest => plays rest
  | Play an _ :: rest => an :: plays rest
  end.

Definition final_play (acts : list action) : option animation :=
  last (map Some (plays acts)) None.

(** Line 133: the test [end_coef is not None]. *)
Definition has_coefficient (a : args) : bool :=
  match end_coef a with
  | Some _ => true
  | None => false
  end.

(** The specification's table of the scenes that pass a coefficient. *)
Definition spec_coefficient (s : Scenes.scene) : option string :=
  match s with
  | Scenes.Y0 => Some "i"
  | Scenes.Y1 => Some "-i"
  | Scenes.Z1 => Some "-"
  | _ => None
  end.

(** The specification's table of the basis-state transitions: start
    position, end position and end label of each basis-state scene. *)
Definition spec_transition (s : Scenes.scene) : option (vec3 * vec3 * string) :=
  match s with
  | Scenes.X0 | Scenes.Y0 => Some (mk 0 0 1, mk 0 0 (-1), "|1\rangle")
  | Scenes.X1 | Scenes.Y1 => Some (mk 0 0 (-1), mk 0 0 1, "|0\rangle")
  | Scenes.Z0 => Some (mk 0 0 1, mk 0 0 1, "|0\rangle")
  | Scenes.Z1 => Some (mk 0 0 (-1), mk 0 0 (-1), "|1\rangle")
  | Scenes.H0 => Some (mk 0 0 1, mk 1 0 0, "|+\rangle")
  | Scenes.H1 => Some (mk 0 0 (-1), mk (-1) 0 0, "|-\rangle")
  | _ => None
  end.

(** ** Further parts of [qubit] *)

(** Lines 40-53: the tail of the arrow [vec], built at the origin, once
    its updater has run with the tracker at [rot_value]. *)
Definition vec_start (a : args) (rot_value : R) : vec3 :=
  rotate_about_origin (rot_value * DEGREES) (rotate_axis a) (mk 0 0 0).

(** Line 66: the height [np.dot(point, z)] the arc is shifted to. *)
Definition arc_height (a : args) : R := dot (point a) (z a).

(** Lines 135-139: the displacement of [state_psi_coef] from the end
    label. *)
Definition coef_offset (tex_width : string -> R) (a : args) (coef : string)
  : vec3 :=
  sub (state_psi_coef_position tex_width a coef) (state_psi_end_position a).

(** How each gate acts on a Bloch vector: the Pauli gates keep their own
    coordinate and negate the other two, the Hadamard gate exchanges the
    first and third coordinates and negates the second. *)
Definition bloch_action (g : Scenes.gate) (v : vec3) : vec3 :=
  match g with
  | Scenes.PauliX => mk (cx v) (- cy v) (- cz v)
  | Scenes.PauliY => mk (- cx v) (cy v) (- cz v)
  | Scenes.PauliZ => mk (- cx v) (- cy v) (cz v)
  | Scenes.Hadamard => mk (cz v) (- cy v) (cx v)
  end.

(** The specification's "rotated by [t] about the unit vector [k]"
    (right-hand rule): the part of [p] along [k] stays, the part across
    [k] turns by [t] in the plane orthogonal to [k]. *)
Definition along (k p : vec3) : vec3 := scale (dot k p) k.

Definition across (k p : vec3) : vec3 := sub p (along k p).

Definition turn_about (t : R) (k p : vec3) : vec3 :=
  add (along k p)
      (add (scale (cos t) (across k p))
           (scale (sin t) (cross k (across k p)))).

(** * Properties *)

(** ** Vector algebra *)

Section VectorFacts.

Implicit Types u v w k : vec3.

Lemma vec3_eq u v :
  cx u = cx v -> cy u = cy v -> cz u = cz v -> u = v.
Proof. destruct u, v; simpl; intros; subst; reflexivity. Qed.

Lemma dot_self_nonneg v : 0 <= dot v v.
Proof. unfold dot. nra. Qed.

Lemma norm_nonneg v : 0 <= norm v.
Proof. apply sqrt_pos. Qed.

Lemma norm_sqr v : norm v * norm v = dot v v.
Proof. apply sqrt_sqrt, dot_self_nonneg. Qed.

Lemma norm_of_dot v (n : R) : 0 <= n -> dot v v = n * n -> norm v = n.
Proof.
  intros Hn Hd. unfold norm. rewrite Hd. now apply sqrt_square.
Qed.

Lemma unit_dot v : norm v = 1 -> dot v v = 1.
Proof. intros Hn. rewrite <- norm_sqr, Hn. ring. Qed.

Lemma dot_unit v : dot v v = 1 -> norm v = 1.
Proof. intros Hd. apply norm_of_dot; [lra | rewrite Hd; ring]. Qed.

Lemma norm_zero_dot v : norm v = 0 -> dot v v = 0.
Proof. intros Hn. rewrite <- norm_sqr, Hn. ring. Qed.

Lemma dot_zero_vec v : dot v v = 0 -> v = zero.
Proof.
  unfold dot. intros Hd. apply vec3_eq; simpl; nra.
Qed.

Lemma norm_zero_iff v : norm v = 0 <-> v = zero.
Proof.
  split.
  - intros Hn. apply dot_zero_vec, norm_zero_dot, Hn.
  - intros ->. apply norm_of_dot; [lra | unfold dot; simpl; ring].
Qed.

(** Lagrange's identity. *)
Lemma cross_sqr u v :
  dot (cross u v) (cross u v) = dot u u * dot v v - dot u v * dot u v.
Proof. unfold dot, cross; simpl. ring. Qed.

Lemma dot_scale_l (c : R) u v : dot (scale c u) v = c * dot u v.
Proof. unfold dot, scale; simpl. ring. Qed.

Lemma mat_vec_scale (M : mat3) (c : R) v :
  mat_vec M (scale c v) = scale c (mat_vec M v).
Proof. apply vec3_eq; unfold mat_vec, scale, dot; simpl; ring. Qed.

End VectorFacts.

(** ** The framework's rotation *)

Section RotationFacts.

Implicit Types u v k axis : vec3.

Lemma normalize_cases v :
  (norm v = 0 /\ normalize v = zero) \/
  (0 < norm v /\ dot (normalize v) (normalize v) = 1).
Proof.
  unfold normalize. destruct (Rlt_dec 0 (norm v)) as [Hpos | Hnpos].
  - right. split; [exact Hpos|].
    pose proof (norm_sqr v) as Hs.
    unfold dot, scale in *; simpl.
    set (n := norm v) in *.
    assert (Hn : n <> 0) by lra.
    transitivity ((cx v * cx v + cy v * cy v + cz v * cz v) / (n * n)).
    + field. exact Hn.
    + rewrite <- Hs. field. exact Hn.
  - left. split; [|reflexivity]. pose proof (norm_nonneg v). lra.
Qed.

Lemma normalize_unit v : norm v = 1 -> normalize v = v.
Proof.
  intros Hn. unfold normalize. rewrite Hn.
  destruct (Rlt_dec 0 1) as [_ | Hbad]; [|lra].
  apply vec3_eq; simpl; field.
Qed.

(** Rodrigues' formula, read off the rotation matrix. *)
Lemma rotate_rodrigues (t : R) axis v :
  let k := normalize axis in
  rotate_about_origin t axis v =
  add (add (scale (cos t) v) (scale (sin t) (cross k v)))
      (scale ((1 - cos t) * dot k v) k).
Proof.
  intros k. unfold rotate_about_origin, rotation_matrix. fold k.
  apply vec3_eq; unfold mat_vec, add, scale, cross, dot; simpl; ring.
Qed.

Lemma rotate_scale (t c : R) axis v :
  rotate_about_origin t axis (scale c v) =
  scale c (rotate_about_origin t axis v).
Proof. apply mat_vec_scale. Qed.

(** Rotating back by the opposite angle about a unit axis. *)
Lemma rotate_back_unit (t : R) axis v :
  dot (normalize axis) (normalize axis) = 1 ->
  rotate_about_origin (- t) axis (rotate_about_origin t axis v) = v.
Proof.
  intros Hk.
  unfold rotate_about_origin, rotation_matrix.
  rewrite cos_neg, sin_neg.
  pose proof (sin2_cos2 t) as Hcs. unfold Rsqr in Hcs.
  set (k := normalize axis) in *.
  set (c := cos t) in *. set (s := sin t) in *.
  unfold dot in Hk.
  apply vec3_eq; unfold mat_vec, dot; simpl; nsatz.
Qed.

(** A rotation vector undone by the script's [angle = -norm(rotvec)]. *)
Lemma rotate_back_rotvec (rotvec v : vec3) :
  rotate_about_origin (- norm rotvec) rotvec
    (rotate_about_origin (norm rotvec) rotvec v) = v.
Proof.
  destruct (normalize_cases rotvec) as [[Hn Hz] | [_ Hk]].
  - unfold rotate_about_origin, rotation_matrix.
    rewrite Hz, Hn, Ropp_0, cos_0, sin_0.
    apply vec3_eq; unfold mat_vec, dot; simpl; ring.
  - now apply rotate_back_unit.
Qed.

Lemma degrees_180 : 180 * DEGREES = PI.
Proof. unfold DEGREES, TAU. field. Qed.

Lemma degrees_0 : 0 * DEGREES = 0.
Proof. ring. Qed.

End RotationFacts.

(** ** The start point and the frame of [qubit] *)

Section FrameFacts.

Implicit Types u v w k : vec3.

Lemma point_dot (a : args) : dot (point a) (point a) = 1.
Proof.
  unfold point, dot; simpl.
  pose proof (sin2_cos2 (fst (start_point a) * DEGREES)) as H1.
  pose proof (sin2_cos2 (snd (start_point a) * DEGREES)) as H2.
  unfold Rsqr in H1, H2. nsatz.
Qed.

(** An orthonormal pair completed by the cross product, as lines 59-60 do. *)
Lemma completed_frame vx vz :
  dot vx vx = 1 -> dot vz vz = 1 -> dot vx vz = 0 ->
  let vy := cross vz vx in
  dot vy vy = 1 /\ dot vx vy = 0 /\ dot vy vz = 0 /\
  is_rotation (rows vx vy vz).
Proof.
  intros Hx Hz Hxz vy.
  assert (Hy : dot vy vy = 1).
  { unfold vy. rewrite cross_sqr, Hx, Hz.
    replace (dot vz vx) with (dot vx vz) by (unfold dot; ring).
    rewrite Hxz. ring. }
  assert (Hxy : dot vx vy = 0) by (unfold vy, dot, cross; simpl; ring).
  assert (Hyz : dot vy vz = 0) by (unfold vy, dot, cross; simpl; ring).
  repeat split; try assumption.
  - unfold mat_mul, transpose, identity, mat_vec; simpl.
    unfold dot in *; simpl in *.
    f_equal; apply vec3_eq; simpl; lra.
  - unfold det; simpl.
    transitivity (dot vy vy); [|exact Hy].
    unfold vy, dot, cross in *; simpl in *. nsatz.
Qed.

(** The unscaled [x] is orthogonal to a unit axis. *)
Lemma x_unscaled_orthogonal (a : args) :
  norm (rotate_axis a) = 1 -> dot (x_unscaled a) (z a) = 0.
Proof.
  intros Hz. apply unit_dot in Hz.
  unfold x_unscaled, z, sub, scale, dot in *; simpl. nsatz.
Qed.

Lemma divide_some v (d : R) :
  d <> 0 -> divide v d = Some (scale (/ d) v).
Proof.
  intros Hd. unfold divide. destruct (Req_dec_T d 0); [contradiction | reflexivity].
Qed.

Lemma divide_none v (d : R) : divide v d = None <-> d = 0.
Proof.
  unfold divide. destruct (Req_dec_T d 0); split; intros; try discriminate;
    try reflexivity; try assumption; contradiction.
Qed.

Lemma frame_some (a : args) :
  r a <> 0 ->
  let vx := scale (/ r a) (x_unscaled a) in
  x a = Some vx /\ y a = Some (cross (z a) vx) /\
  frame a = Some (rows vx (cross (z a) vx) (z a)).
Proof.
  intros Hr vx. unfold frame, y, x.
  rewrite (divide_some _ _ Hr). simpl. repeat split; reflexivity.
Qed.

Lemma frame_none (a : args) : r a = 0 -> x a = None /\ frame a = None.
Proof.
  intros Hr. unfold frame, y, x.
  assert (Hd : divide (x_unscaled a) (r a) = None) by now apply divide_none.
  rewrite Hd. split; reflexivity.
Qed.

Lemma x_scaled_unit (a : args) :
  r a <> 0 -> dot (scale (/ r a) (x_unscaled a)) (scale (/ r a) (x_unscaled a)) = 1.
Proof.
  intros Hr. pose proof (norm_sqr (x_unscaled a)) as Hs. fold (r a) in Hs.
  transitivity (dot (x_unscaled a) (x_unscaled a) / (r a * r a)).
  - unfold dot, scale; simpl. field. exact Hr.
  - rewrite <- Hs. field. exact Hr.
Qed.

(** The start point splits into its part along [x] and its height on the
    axis. *)
Lemma point_split (a : args) :
  r a <> 0 ->
  point a =
  add (scale (r a) (scale (/ r a) (x_unscaled a)))
      (scale (dot (point a) (z a)) (z a)).
Proof.
  intros Hr. apply vec3_eq; unfold x_unscaled, add, scale, sub; simpl; field;
    exact Hr.
Qed.

(** Sweeping the angle [t] in the frame's horizontal plane is rotating
    about its third vector. *)
Lemma sweep_is_rotation (t rad h : R) vx vz :
  dot vz vz = 1 -> dot vx vz = 0 ->
  let p := add (scale rad vx) (scale h vz) in
  add (add (scale (rad * cos t) vx) (scale (rad * sin t) (cross vz vx)))
      (scale h vz) =
  add (add (scale (cos t) p) (scale (sin t) (cross vz p)))
      (scale ((1 - cos t) * dot vz p) vz).
Proof.
  intros Hz Hxz p. unfold p.
  unfold dot in Hz, Hxz.
  apply vec3_eq; unfold add, scale, cross, dot; simpl; nsatz.
Qed.

(** The frame's matrix sends a point given in frame coordinates to those
    coordinates. *)
Lemma frame_coordinates (c1 c2 c3 : R) vx vz :
  dot vx vx = 1 -> dot vz vz = 1 -> dot vx vz = 0 ->
  let vy := cross vz vx in
  mat_vec (rows vx vy vz)
    (add (add (scale c1 vx) (scale c2 vy)) (scale c3 vz)) = mk c1 c2 c3.
Proof.
  intros Hx Hz Hxz vy.
  destruct (completed_frame _ _ Hx Hz Hxz) as (Hy & Hxy & Hyz & _). fold vy in Hy, Hxy, Hyz.
  unfold mat_vec; simpl.
  set (w := vy) in *. clearbody w.
  unfold dot, add, scale in *; simpl in *.
  apply vec3_eq; simpl; nsatz.
Qed.

End FrameFacts.

(** ** Values at the scenes' arguments *)

Section SceneValues.

Lemma point_north (a : args) : start_point a = (0, 0) -> point a = mk 0 0 1.
Proof.
  intros Hs. unfold point. rewrite Hs; simpl.
  rewrite degrees_0, cos_0, sin_0. apply vec3_eq; simpl; ring.
Qed.

Lemma point_south (a : args) :
  start_point a = (0, 180) -> point a = mk 0 0 (-1).
Proof.
  intros Hs. unfold point. rewrite Hs; simpl.
  rewrite degrees_0, degrees_180, cos_0, sin_0, cos_PI, sin_PI.
  apply vec3_eq; simpl; ring.
Qed.

(** A half turn about a unit axis reflects through the axis. *)
Lemma rotate_half_turn (axis v : vec3) :
  norm axis = 1 ->
  rotate_about_origin (180 * DEGREES) axis v =
  sub (scale (2 * dot axis v) axis) v.
Proof.
  intros Hn. rewrite rotate_rodrigues, normalize_unit by exact Hn.
  rewrite degrees_180, cos_PI, sin_PI.
  apply vec3_eq; unfold add, sub, scale, cross, dot; simpl; ring.
Qed.

Lemma inv_sqrt2_sqr : 1 / sqrt 2 * (1 / sqrt 2) = 1 / 2.
Proof.
  pose proof sqrt2_neq_0 as Hne.
  pose proof (sqrt_sqrt 2 ltac:(lra)) as Hs.
  field_simplify_eq; [|exact Hne]. lra.
Qed.

Lemma scene_axis_unit (s : Scenes.scene) :
  norm (rotate_axis (Scenes.qubit_call s)) = 1.
Proof.
  apply dot_unit.
  destruct s; unfold dot; simpl; try ring;
    pose proof inv_sqrt2_sqr as Hq; lra.
Qed.

End SceneValues.

(** ** The start point lies on the unit sphere *)

(** C4.  For every start point [phi, theta], in degrees, the point
    [cos phi sin theta, sin phi sin theta, cos theta] that [qubit] computes
    has Euclidean norm exactly one. *)
Theorem point_on_unit_sphere (a : args) :
  point a =
    mk (cos (fst (start_point a) * DEGREES) * sin (snd (start_point a) * DEGREES))
       (sin (fst (start_point a) * DEGREES) * sin (snd (start_point a) * DEGREES))
       (cos (snd (start_point a) * DEGREES)) /\
  norm (point a) = 1.
Proof.
  split; [reflexivity|]. apply dot_unit, point_dot.
Qed.

(** ** The frame is a rotation matrix *)

(** C9.  For a unit rotation axis [z] and a nonzero [r], the frame
    [x, y, z] of [qubit] is defined, its vectors have norm one and are
    pairwise orthogonal, [y] is [z] cross [x], and the matrix of rows
    [x, y, z] is a rotation matrix. *)
Theorem frame_right_handed_orthonormal (a : args) :
  norm (rotate_axis a) = 1 ->
  r a <> 0 ->
  exists vx vy,
    x a = Some vx /\ y a = Some vy /\ frame a = Some (rows vx vy (z a)) /\
    norm vx = 1 /\ norm vy = 1 /\ norm (z a) = 1 /\
    dot vx vy = 0 /\ dot vx (z a) = 0 /\ dot vy (z a) = 0 /\
    vy = cross (z a) vx /\
    is_rotation (rows vx vy (z a)).
Proof.
  intros Hz Hr.
  destruct (frame_some a Hr) as (Hx & Hy & Hf).
  set (vx := scale (/ r a) (x_unscaled a)) in *.
  exists vx, (cross (z a) vx).
  assert (Hxx : dot vx vx = 1) by (apply x_scaled_unit, Hr).
  assert (Hzz : dot (z a) (z a) = 1) by (apply unit_dot, Hz).
  assert (Hxz : dot vx (z a) = 0).
  { unfold vx. rewrite dot_scale_l, (x_unscaled_orthogonal a Hz). ring. }
  destruct (completed_frame vx (z a) Hxx Hzz Hxz) as (Hyy & Hxy & Hyz & Hrot).
  repeat split; try assumption; try reflexivity.
  - apply dot_unit, Hxx.
  - apply dot_unit, Hyy.
  - apply Hrot.
  - apply Hrot.
Qed.

(** ** The arc glyph follows the vector *)

(** C2.  For a unit rotation axis and a start point not parallel to it
    ([r] nonzero), with [rotvec] the rotation vector of the frame
    [x, y, z]: for every angle [t] the tip of [Arc(r, 0, t)], shifted to
    height [point . z] and rotated by [angle = -norm(rotvec)] about
    [rotvec], is the start point rotated by [t] about the rotation axis;
    so the arc's updater and the vector's updater agree at every value of
    the tracker. *)
Theorem arc_tip_follows_vector (a : args) (rotvec : vec3) (M : mat3) :
  norm (rotate_axis a) = 1 ->
  r a <> 0 ->
  frame a = Some M ->
  is_rotvec_of rotvec M ->
  (forall t : R,
     arc_tip a rotvec t = rotate_about_origin t (rotate_axis a) (point a)) /\
  (forall rot_value : R, arc_tip_at a rotvec rot_value = vec_end a rot_value).
Proof.
  intros Hz Hr Hframe Hrotvec.
  assert (Htip : forall t : R,
             arc_tip a rotvec t =
             rotate_about_origin t (rotate_axis a) (point a)).
  { intros t.
    destruct (frame_some a Hr) as (_ & _ & Hf).
    rewrite Hf in Hframe. injection Hframe as <-.
    set (vx := scale (/ r a) (x_unscaled a)) in *.
    assert (Hxx : dot vx vx = 1) by (apply x_scaled_unit, Hr).
    assert (Hzz : dot (z a) (z a) = 1) by (apply unit_dot, Hz).
    assert (Hxz : dot vx (z a) = 0).
    { unfold vx. rewrite dot_scale_l, (x_unscaled_orthogonal a Hz). ring. }
    set (h := dot (point a) (z a)).
    set (u := add (add (scale (r a * cos t) vx)
                       (scale (r a * sin t) (cross (z a) vx)))
                  (scale h (z a))).
    assert (Hflat : shift (mk 0 0 h) (Arc_end (r a) 0 t) =
                    mat_vec (rows vx (cross (z a) vx) (z a)) u).
    { unfold u. rewrite (frame_coordinates _ _ _ vx (z a) Hxx Hzz Hxz).
      unfold shift, Arc_end, Arc_point, add; simpl.
      rewrite Rplus_0_l. apply vec3_eq; simpl; ring. }
    unfold arc_tip, angle. fold h. rewrite Hflat, <- Hrotvec.
    rewrite rotate_back_rotvec.
    rewrite rotate_rodrigues, normalize_unit by exact Hz.
    unfold u. fold (z a).
    rewrite (sweep_is_rotation t (r a) h vx (z a) Hzz Hxz).
    unfold vx, h. rewrite <- (point_split a Hr). reflexivity. }
  split; [exact Htip|].
  intros rot_value. unfold arc_tip_at, vec_end. apply Htip.
Qed.

(** ** The frame and its rotation vector at scene [X0] *)

Section FrameAtX0.

Lemma x_unscaled_X0 : x_unscaled (Scenes.qubit_call Scenes.X0) = mk 0 0 1.
Proof.
  unfold x_unscaled. rewrite (point_north (Scenes.qubit_call Scenes.X0) eq_refl).
  apply vec3_eq; unfold sub, scale, dot, z; simpl; ring.
Qed.

Lemma r_X0 : r (Scenes.qubit_call Scenes.X0) = 1.
Proof.
  unfold r. rewrite x_unscaled_X0.
  apply norm_of_dot; [lra | unfold dot; simpl; ring].
Qed.

Lemma r_X0_nonzero : r (Scenes.qubit_call Scenes.X0) <> 0.
Proof. rewrite r_X0. lra. Qed.

Lemma frame_X0 :
  frame (Scenes.qubit_call Scenes.X0) = Some (rows (mk 0 0 1) (mk 0 (-1) 0) (mk 1 0 0)).
Proof.
  destruct (frame_some (Scenes.qubit_call Scenes.X0) r_X0_nonzero) as (_ & _ & ->).
  rewrite r_X0, x_unscaled_X0.
  f_equal. f_equal; apply vec3_eq; unfold scale, cross, z; simpl; field.
Qed.

(** The frame at [X0] is the half turn about the diagonal of the first
    and third axes. *)
Lemma rotvec_X0 :
  is_rotvec_of (mk (PI / sqrt 2) 0 (PI / sqrt 2))
    (rows (mk 0 0 1) (mk 0 (-1) 0) (mk 1 0 0)).
Proof.
  intros v.
  pose proof sqrt2_neq_0 as Hne.
  pose proof (sqrt_sqrt 2 ltac:(lra)) as Hs.
  pose proof PI_RGT_0 as Hpi.
  assert (Hn : norm (mk (PI / sqrt 2) 0 (PI / sqrt 2)) = PI).
  { apply norm_of_dot; [lra|]. unfold dot; simpl.
    field_simplify_eq; [|exact Hne]. nra. }
  rewrite rotate_rodrigues. unfold normalize. rewrite Hn.
  destruct (Rlt_dec 0 PI) as [_ | Hbad]; [|lra].
  rewrite cos_PI, sin_PI.
  assert (Hq : 1 / sqrt 2 * (1 / sqrt 2) = 1 / 2) by apply inv_sqrt2_sqr.
  assert (Hk : scale (/ PI) (mk (PI / sqrt 2) 0 (PI / sqrt 2)) =
               mk (1 / sqrt 2) 0 (1 / sqrt 2)).
  { apply vec3_eq; simpl; field; repeat split; (assumption || lra). }
  rewrite Hk.
  set (q := 1 / sqrt 2) in *.
  assert (Hq2 : 2 * (q * q) = 1) by lra.
  clearbody q. clear Hq Hk Hn Hs Hne Hpi.
  apply vec3_eq; unfold mat_vec, add, scale, cross, dot; simpl; nsatz.
Qed.

End FrameAtX0.

(** The arc theorem at scene [X0], whose frame is a half turn. *)
Lemma arc_tip_follows_vector_X0 :
  norm (rotate_axis (Scenes.qubit_call Scenes.X0)) = 1 /\
  r (Scenes.qubit_call Scenes.X0) <> 0 /\
  frame (Scenes.qubit_call Scenes.X0) =
    Some (rows (mk 0 0 1) (mk 0 (-1) 0) (mk 1 0 0)) /\
  is_rotvec_of (mk (PI / sqrt 2) 0 (PI / sqrt 2))
    (rows (mk 0 0 1) (mk 0 (-1) 0) (mk 1 0 0)) /\
  (forall t : R,
     arc_tip (Scenes.qubit_call Scenes.X0) (mk (PI / sqrt 2) 0 (PI / sqrt 2)) t =
     rotate_about_origin t (rotate_axis (Scenes.qubit_call Scenes.X0))
       (point (Scenes.qubit_call Scenes.X0))) /\
  (forall rot_value : R,
     arc_tip_at (Scenes.qubit_call Scenes.X0)
       (mk (PI / sqrt 2) 0 (PI / sqrt 2)) rot_value =
     vec_end (Scenes.qubit_call Scenes.X0) rot_value).
Proof.
  split; [apply scene_axis_unit|].
  split; [apply r_X0_nonzero|].
  split; [apply frame_X0|].
  split; [apply rotvec_X0|].
  apply (arc_tip_follows_vector (Scenes.qubit_call Scenes.X0)
           (mk (PI / sqrt 2) 0 (PI / sqrt 2))
           (rows (mk 0 0 1) (mk 0 (-1) 0) (mk 1 0 0))
           (scene_axis_unit Scenes.X0) r_X0_nonzero frame_X0 rotvec_X0).
Defined.

(** The frame theorem at scene [X0]. *)
Lemma frame_right_handed_orthonormal_X0 :
  norm (rotate_axis (Scenes.qubit_call Scenes.X0)) = 1 /\
  r (Scenes.qubit_call Scenes.X0) <> 0 /\
  exists vx vy,
    x (Scenes.qubit_call Scenes.X0) = Some vx /\
    y (Scenes.qubit_call Scenes.X0) = Some vy /\
    frame (Scenes.qubit_call Scenes.X0) =
      Some (rows vx vy (z (Scenes.qubit_call Scenes.X0))) /\
    norm vx = 1 /\ norm vy = 1 /\ norm (z (Scenes.qubit_call Scenes.X0)) = 1 /\
    dot vx vy = 0 /\ dot vx (z (Scenes.qubit_call Scenes.X0)) = 0 /\
    dot vy (z (Scenes.qubit_call Scenes.X0)) = 0 /\
    vy = cross (z (Scenes.qubit_call Scenes.X0)) vx /\
    is_rotation (rows vx vy (z (Scenes.qubit_call Scenes.X0))).
Proof.
  split; [apply scene_axis_unit|].
  split; [apply r_X0_nonzero|].
  apply (frame_right_handed_orthonormal (Scenes.qubit_call Scenes.X0)
           (scene_axis_unit Scenes.X0) r_X0_nonzero).
Defined.

(** ** The basis-state scenes *)

(** C1.  For each basis-state scene, the start point that [qubit]
    computes, turned by 180 degrees about the scene's rotation axis, is the
    Bloch-sphere position of the state the end label names: [X0], [Y0]
    take the north pole to the south pole (end label [|1>]), [X1], [Y1]
    the south pole to the north pole ([|0>]), [Z0] and [Z1] fix their
    pole, [H0] takes [0,0,1] to [1,0,0] ([|+>]) and [H1] takes [0,0,-1]
    to [-1,0,0] ([|->]). *)
Theorem basis_scene_half_turn (s : Scenes.scene) (a : args) :
  In s Scenes.basis_scenes ->
  In a (Scenes.construct s) ->
  exists start finish : vec3,
    spec_transition s = Some (start, finish, end_name a) /\
    point a = start /\
    rotate_angle a = 180 /\
    rotate_about_origin (180 * DEGREES) (rotate_axis a) (point a) = finish /\
    vec_end a (rotate_angle a) = finish /\
    bloch_position (end_name a) = Some finish.
Proof.
  intros Hs Ha.
  destruct Ha as [<- | []].
  assert (Hturn : forall finish,
             sub (scale (2 * dot (rotate_axis (Scenes.qubit_call s))
                                 (point (Scenes.qubit_call s)))
                        (rotate_axis (Scenes.qubit_call s)))
                 (point (Scenes.qubit_call s)) = finish ->
             rotate_angle (Scenes.qubit_call s) = 180 ->
             rotate_about_origin (180 * DEGREES)
               (rotate_axis (Scenes.qubit_call s))
               (point (Scenes.qubit_call s)) = finish /\
             vec_end (Scenes.qubit_call s)
               (rotate_angle (Scenes.qubit_call s)) = finish).
  { intros finish Hf Hangle. unfold vec_end. rewrite Hangle.
    rewrite (rotate_half_turn _ _ (scene_axis_unit s)). now split. }
  pose proof inv_sqrt2_sqr as Hq.
  simpl in Hs.
  repeat (destruct Hs as [<- | Hs]); try contradiction;
    match goal with
    | |- context [spec_transition ?sc] =>
        let t := eval cbv [spec_transition] in (spec_transition sc) in
        match t with
        | Some (?p, ?q, _) => exists p, q
        end
    end;
    (split; [reflexivity|]);
    (split; [first [apply point_north; reflexivity
                   | apply point_south; reflexivity]|]);
    (split; [reflexivity|]);
    match goal with
    | |- ?A /\ ?B /\ _ =>
        assert (HAB : A /\ B);
        [apply Hturn; [|reflexivity]
        |destruct HAB; repeat split; try assumption; reflexivity]
    end;
    match goal with
    | |- context [point ?c] =>
        first [rewrite (point_north c eq_refl) | rewrite (point_south c eq_refl)]
    end;
    apply vec3_eq; unfold sub, scale, dot; simpl; lra.
Qed.

(** The theorem above at scene [X0]. *)
Lemma basis_scene_half_turn_X0 :
  In Scenes.X0 Scenes.basis_scenes /\
  In (Scenes.qubit_call Scenes.X0) (Scenes.construct Scenes.X0) /\
  exists start finish : vec3,
    spec_transition Scenes.X0 =
      Some (start, finish, end_name (Scenes.qubit_call Scenes.X0)) /\
    point (Scenes.qubit_call Scenes.X0) = start /\
    rotate_angle (Scenes.qubit_call Scenes.X0) = 180 /\
    rotate_about_origin (180 * DEGREES)
      (rotate_axis (Scenes.qubit_call Scenes.X0))
      (point (Scenes.qubit_call Scenes.X0)) = finish /\
    vec_end (Scenes.qubit_call Scenes.X0)
      (rotate_angle (Scenes.qubit_call Scenes.X0)) = finish /\
    bloch_position (end_name (Scenes.qubit_call Scenes.X0)) = Some finish.
Proof.
  split; [left; reflexivity|].
  split; [left; reflexivity|].
  apply (basis_scene_half_turn Scenes.X0 (Scenes.qubit_call Scenes.X0));
    left; reflexivity.
Defined.

(** ** The division by [r] *)

Section DivisionFacts.

Lemma r_zero_parallel (a : args) :
  r a = 0 -> parallel (point a) (rotate_axis a).
Proof.
  intros Hr. apply norm_zero_iff in Hr.
  assert (Hp : point a = scale (dot (point a) (z a)) (z a)).
  { unfold x_unscaled, zero in Hr.
    apply vec3_eq; unfold sub, scale in *; simpl in *;
      injection Hr as H1 H2 H3; lra. }
  unfold parallel. rewrite Hp. fold (z a).
  apply vec3_eq; unfold cross, scale, zero; simpl; ring.
Qed.

Lemma x_unscaled_sqr (a : args) :
  norm (rotate_axis a) = 1 ->
  dot (x_unscaled a) (x_unscaled a) =
  dot (cross (point a) (rotate_axis a)) (cross (point a) (rotate_axis a)).
Proof.
  intros Hz. apply unit_dot in Hz. rewrite cross_sqr, Hz.
  unfold x_unscaled, z. set (p := point a). set (k := rotate_axis a) in *.
  unfold dot, sub, scale in *; simpl. nsatz.
Qed.

Lemma parallel_r_zero (a : args) :
  norm (rotate_axis a) = 1 ->
  parallel (point a) (rotate_axis a) -> r a = 0.
Proof.
  intros Hz Hpar. unfold r.
  apply norm_of_dot; [lra|].
  rewrite (x_unscaled_sqr a Hz), Hpar. unfold dot, zero; simpl. ring.
Qed.

Lemma r_Z0 : r (Scenes.qubit_call Scenes.Z0) = 0.
Proof.
  apply parallel_r_zero; [apply scene_axis_unit|].
  unfold parallel. rewrite (point_north (Scenes.qubit_call Scenes.Z0) eq_refl).
  apply vec3_eq; unfold cross, zero; simpl; ring.
Qed.

End DivisionFacts.

(** C3, as stated, fails for an axis that is not a unit vector: the start
    point [0, 0] is parallel to the axis [0, 0, 2], yet [r] is 3. *)
Lemma r_zero_iff_parallel_fails :
  parallel (point (Args (0, 0) (mk 0 0 2) 180 false "|0\rangle" "|0\rangle" None))
           (rotate_axis
              (Args (0, 0) (mk 0 0 2) 180 false "|0\rangle" "|0\rangle" None)) /\
  r (Args (0, 0) (mk 0 0 2) 180 false "|0\rangle" "|0\rangle" None) = 3 /\
  ~ (r (Args (0, 0) (mk 0 0 2) 180 false "|0\rangle" "|0\rangle" None) = 0 <->
     parallel
       (point (Args (0, 0) (mk 0 0 2) 180 false "|0\rangle" "|0\rangle" None))
       (rotate_axis
          (Args (0, 0) (mk 0 0 2) 180 false "|0\rangle" "|0\rangle" None))).
Proof.
  set (a := Args (0, 0) (mk 0 0 2) 180 false "|0\rangle" "|0\rangle" None).
  assert (Hp : point a = mk 0 0 1) by (apply point_north; reflexivity).
  assert (Hpar : parallel (point a) (rotate_axis a)).
  { unfold parallel. rewrite Hp.
    apply vec3_eq; unfold cross, zero; simpl; ring. }
  assert (Hr : r a = 3).
  { unfold r. apply norm_of_dot; [lra|].
    unfold x_unscaled. rewrite Hp.
    unfold dot, sub, scale, z; simpl. ring. }
  split; [exact Hpar|]. split; [exact Hr|].
  intros [_ Hback]. specialize (Hback Hpar). lra.
Qed.

(** C3, amended.  [x /= r] is unguarded: [x], and with it the frame, is
    undefined exactly when [r] is zero.  A zero [r] makes the start point
    parallel to the rotation axis, and for a unit rotation axis [r] is
    zero exactly when the start point is parallel to it.  Scene [Z0],
    whose start point is the axis itself, reaches the zero case. *)
Theorem unguarded_division_reached :
  (forall a : args, x a = None <-> r a = 0) /\
  (forall a : args, frame a = None <-> r a = 0) /\
  (forall a : args, r a = 0 -> parallel (point a) (rotate_axis a)) /\
  (forall a : args,
     norm (rotate_axis a) = 1 ->
     (r a = 0 <-> parallel (point a) (rotate_axis a))) /\
  (point (Scenes.qubit_call Scenes.Z0) = z (Scenes.qubit_call Scenes.Z0) /\
   r (Scenes.qubit_call Scenes.Z0) = 0 /\
   x (Scenes.qubit_call Scenes.Z0) = None /\
   frame (Scenes.qubit_call Scenes.Z0) = None).
Proof.
  assert (Hx : forall a : args, x a = None <-> r a = 0).
  { intros a. unfold x. apply divide_none. }
  assert (Hf : forall a : args, frame a = None <-> r a = 0).
  { intros a. split.
    - intros Hnone. destruct (Req_dec_T (r a) 0) as [H0 | Hne]; [exact H0|].
      destruct (frame_some a Hne) as (_ & _ & Hsome).
      rewrite Hsome in Hnone. discriminate.
    - intros H0. apply (frame_none a H0). }
  repeat split.
  - apply Hx.
  - apply Hx.
  - apply Hf.
  - apply Hf.
  - apply r_zero_parallel.
  - apply r_zero_parallel.
  - now apply parallel_r_zero.
  - apply (point_north (Scenes.qubit_call Scenes.Z0) eq_refl).
  - apply r_Z0.
  - apply Hx, r_Z0.
  - apply Hf, r_Z0.
Qed.

(** The amended claim at scene [Z0]. *)
Lemma unguarded_division_reached_Z0 :
  norm (rotate_axis (Scenes.qubit_call Scenes.Z0)) = 1 /\
  r (Scenes.qubit_call Scenes.Z0) = 0 /\
  parallel (point (Scenes.qubit_call Scenes.Z0))
           (rotate_axis (Scenes.qubit_call Scenes.Z0)) /\
  frame (Scenes.qubit_call Scenes.Z0) = None.
Proof.
  destruct unguarded_division_reached
    as (_ & Hf & Hpar & Hiff & (_ & Hr0 & _ & _)).
  split; [apply scene_axis_unit|].
  split; [exact Hr0|].
  split.
  - apply (Hiff (Scenes.qubit_call Scenes.Z0) (scene_axis_unit Scenes.Z0)).
    exact Hr0.
  - apply Hf. exact Hr0.
Defined.

(** ** The timeline *)

Section TimelineFacts.

Lemma state_anim_cases (a : args) :
  (end_coef a = None /\
   state_anim a = Transform state_psi state_psi_end) \/
  (exists coef, end_coef a = Some coef /\
   state_anim a =
     AnimationGroup
       [Transform state_psi state_psi_end; Create state_psi_coef]).
Proof.
  unfold state_anim. destruct (end_coef a) as [coef|].
  - right. exists coef. split; reflexivity.
  - left. split; reflexivity.
Qed.

Lemma state_anim_keeps_tracker (a : args) (v : R) :
  rot_after (state_anim a) v = v.
Proof.
  destruct (state_anim_cases a) as [[_ ->] | (coef & _ & ->)]; reflexivity.
Qed.

Lemma state_anim_kind (a : args) :
  moves_tracker (state_anim a) = false /\ swaps_label (state_anim a) = true.
Proof.
  destruct (state_anim_cases a) as [[_ ->] | (coef & _ & ->)];
    split; reflexivity.
Qed.

Lemma run_rotation (a : args) :
  run (firstn 2 (qubit a)) initial = Stage (rotate_angle a) 2.
Proof.
  unfold run, initial; simpl. f_equal; lra.
Qed.

Lemma run_qubit (a : args) : run (qubit a) initial = Stage (rotate_angle a) 3.
Proof.
  unfold run, initial; simpl. rewrite state_anim_keeps_tracker.
  f_equal; lra.
Qed.

Lemma qubit_entries (a : args) (i : nat) (act : action) :
  nth_error (qubit a) i = Some act ->
  (i = 0%nat /\ act = Wait 0.5) \/
  (i = 1%nat /\ act = Play (state_rot a) 1.5) \/
  (i = 2%nat /\ act = Play (state_anim a) 0.5) \/
  (i = 3%nat /\ act = Wait 0.5).
Proof.
  unfold qubit. intros Hi.
  destruct i as [|[|[|[|i]]]]; simpl in Hi.
  - injection Hi as <-. auto.
  - injection Hi as <-. auto.
  - injection Hi as <-. auto 6.
  - injection Hi as <-. auto 6.
  - destruct i; discriminate.
Qed.

End TimelineFacts.

Lemma rotate_is_turn_about (t : R) (k p : vec3) :
  norm k = 1 -> rotate_about_origin t k p = turn_about t k p.
Proof.
  intros Hk. rewrite rotate_rodrigues, normalize_unit by exact Hk.
  apply vec3_eq; unfold turn_about, across, along, add, sub, scale, cross, dot;
    simpl; ring.
Qed.

(** C5.  For a unit rotation axis: when the rotation animation has
    completed, the tracker holds [rotate_angle] (and keeps it to the end
    of the timeline); the vector then ends at the start point rotated by
    [rotate_angle] degrees about [rotate_axis], and the moving label sits
    at 1.25 times that point, which is exactly where [state_psi_end] was
    placed. *)
Theorem label_swap_where_vector_ends (a : args) :
  norm (rotate_axis a) = 1 ->
  rot (run (firstn 2 (qubit a)) initial) = rotate_angle a /\
  rot (run (qubit a) initial) = rotate_angle a /\
  vec_end a (rot (run (firstn 2 (qubit a)) initial)) =
    turn_about (rotate_angle a * DEGREES) (rotate_axis a) (point a) /\
  state_psi_position a (rot (run (firstn 2 (qubit a)) initial)) =
    scale 1.25
      (turn_about (rotate_angle a * DEGREES) (rotate_axis a) (point a)) /\
  state_psi_end_position a =
    scale 1.25
      (turn_about (rotate_angle a * DEGREES) (rotate_axis a) (point a)) /\
  state_psi_position a (rot (run (firstn 2 (qubit a)) initial)) =
    state_psi_end_position a.
Proof.
  intros Hz.
  rewrite run_rotation, run_qubit. simpl.
  assert (Hend : state_psi_end_position a =
                 scale 1.25
                   (turn_about (rotate_angle a * DEGREES) (rotate_axis a)
                      (point a))).
  { unfold state_psi_end_position.
    now rewrite rotate_scale, (rotate_is_turn_about _ _ _ Hz). }
  split; [reflexivity|].
  split; [reflexivity|].
  split; [unfold vec_end; apply (rotate_is_turn_about _ _ _ Hz)|].
  split; [exact Hend|].
  split; [exact Hend|].
  reflexivity.
Qed.

(** The theorem above at scene [X0]. *)
Lemma label_swap_where_vector_ends_X0 :
  norm (rotate_axis (Scenes.qubit_call Scenes.X0)) = 1 /\
  vec_end (Scenes.qubit_call Scenes.X0)
    (rot (run (firstn 2 (qubit (Scenes.qubit_call Scenes.X0))) initial)) =
    turn_about (180 * DEGREES) Xaxis (point (Scenes.qubit_call Scenes.X0)) /\
  state_psi_position (Scenes.qubit_call Scenes.X0)
    (rot (run (firstn 2 (qubit (Scenes.qubit_call Scenes.X0))) initial)) =
    state_psi_end_position (Scenes.qubit_call Scenes.X0).
Proof.
  split; [apply scene_axis_unit|].
  destruct (label_swap_where_vector_ends (Scenes.qubit_call Scenes.X0)
              (scene_axis_unit Scenes.X0))
    as (_ & _ & Hvec & _ & _ & Hlabel).
  split; [exact Hvec | exact Hlabel].
Defined.

(** C6.  Every scene class's [construct] makes exactly one call of
    [qubit]; the call turns by 180 degrees about the axis of the scene's
    gate, [1,0,0] for X, [0,1,0] for Y, [0,0,1] for Z and
    [1/sqrt 2, 0, 1/sqrt 2] for H, each a unit vector. *)
Theorem scenes_half_turn_about_gate_axis (s : Scenes.scene) :
  exists a : args,
    Scenes.construct s = [a] /\
    rotate_angle a = 180 /\
    rotate_axis a = Scenes.gate_axis (Scenes.gate_of s) /\
    norm (Scenes.gate_axis (Scenes.gate_of s)) = 1.
Proof.
  exists (Scenes.qubit_call s).
  split; [reflexivity|].
  split; [destruct s; reflexivity|].
  assert (Hax : rotate_axis (Scenes.qubit_call s) =
                Scenes.gate_axis (Scenes.gate_of s))
    by (destruct s; reflexivity).
  split; [exact Hax|].
  rewrite <- Hax. apply scene_axis_unit.
Qed.

(** C7.  Whatever the arguments, the timeline is a 0.5 s wait, a 1.5 s
    rotation animation, a 0.5 s label animation and a 0.5 s wait, 3 s in
    all. *)
Theorem timeline_is_fixed (a : args) :
  map slot_of (qubit a) =
    [wait_slot 0.5; rotation_slot 1.5; label_slot 0.5; wait_slot 0.5] /\
  map duration (qubit a) = [0.5; 1.5; 0.5; 0.5] /\
  total_duration (qubit a) = 3 /\
  clock (run (qubit a) initial) = 3.
Proof.
  destruct (state_anim_kind a) as [Hm Hs].
  repeat split.
  - unfold qubit; simpl. rewrite Hm, Hs. reflexivity.
  - unfold total_duration; simpl. lra.
  - rewrite run_qubit. reflexivity.
Qed.

(** C8.  The rotation play comes second and the label play third in the
    emitted sequence; the label play is the [Transform] of the start label
    into the end label, alone or grouped with the [Create] of a
    coefficient; every rotation play precedes every label play; and the
    label play starts with the tracker at [rotate_angle], 2 s in. *)
Theorem rotation_precedes_label_swap (a : args) :
  nth_error (qubit a) 1 = Some (Play (IncrementValue (rotate_angle a)) 1.5) /\
  nth_error (qubit a) 2 = Some (Play (state_anim a) 0.5) /\
  (state_anim a = Transform state_psi state_psi_end \/
   state_anim a =
     AnimationGroup
       [Transform state_psi state_psi_end; Create state_psi_coef]) /\
  (forall (i j : nat) (first second : action),
     nth_error (qubit a) i = Some first ->
     nth_error (qubit a) j = Some second ->
     is_rotation_play first = true ->
     is_label_play second = true ->
     (i < j)%nat) /\
  run (firstn 2 (qubit a)) initial = Stage (rotate_angle a) 2.
Proof.
  destruct (state_anim_kind a) as [Hm Hs].
  split; [reflexivity|].
  split; [reflexivity|].
  split.
  { destruct (state_anim_cases a) as [[_ ->] | (coef & _ & ->)]; auto. }
  split; [|apply run_rotation].
  intros i j first second Hi Hj Hrot Hlab.
  destruct (qubit_entries a i first Hi)
    as [[-> ->] | [[-> ->] | [[-> ->] | [-> ->]]]];
    simpl in Hrot; try discriminate;
    try (rewrite Hm in Hrot; discriminate).
  destruct (qubit_entries a j second Hj)
    as [[-> ->] | [[-> ->] | [[-> ->] | [-> ->]]]];
    simpl in Hlab; try discriminate.
  lia.
Qed.

(** The ordering at scene [X0]: the rotation play at index 1, the label
    play at index 2. *)
Lemma rotation_precedes_label_swap_X0 :
  nth_error (qubit (Scenes.qubit_call Scenes.X0)) 1 =
    Some (Play (IncrementValue 180) 1.5) /\
  nth_error (qubit (Scenes.qubit_call Scenes.X0)) 2 =
    Some (Play (Transform state_psi state_psi_end) 0.5) /\
  is_rotation_play (Play (IncrementValue 180) 1.5) = true /\
  is_label_play (Play (Transform state_psi state_psi_end) 0.5) = true /\
  (1 < 2)%nat.
Proof.
  split; [reflexivity|].
  split; [reflexivity|].
  split; [reflexivity|].
  split; [reflexivity|].
  destruct (rotation_precedes_label_swap (Scenes.qubit_call Scenes.X0))
    as (_ & _ & _ & Horder & _).
  apply (Horder 1%nat 2%nat
           (Play (IncrementValue 180) 1.5)
           (Play (Transform state_psi state_psi_end) 0.5));
    reflexivity.
Defined.

(** ** The phase coefficient *)

(** C10.  [qubit] builds and animates the coefficient label exactly when
    [end_coef] is given: then the final play is the group of the label
    [Transform] and the [Create] of the coefficient label, which sits
    beside the end label; otherwise the final play is the [Transform]
    alone.  Among the scenes exactly [Y0] ("i"), [Y1] ("-i") and [Z1]
    ("-") pass a coefficient. *)
Theorem coefficient_label_iff (tex_width : string -> R) (a : args) :
  (label_text a state_psi_coef <> None <-> end_coef a <> None) /\
  (In state_psi_coef (flat_map animated_labels (plays (qubit a))) <->
   end_coef a <> None) /\
  (forall coef : string,
     end_coef a = Some coef ->
     final_play (qubit a) =
       Some (AnimationGroup
               [Transform state_psi state_psi_end; Create state_psi_coef]) /\
     label_text a state_psi_coef = Some coef /\
     label_position tex_width a state_psi_coef =
       Some (add (state_psi_end_position a)
               (scale ((tex_width (end_name a) + tex_width coef) * 0.13)
                  (add (scale (sin theta) RIGHT) (scale (cos theta) DOWN))))) /\
  (end_coef a = None ->
   final_play (qubit a) = Some (Transform state_psi state_psi_end) /\
   label_text a state_psi_coef = None /\
   label_position tex_width a state_psi_coef = None) /\
  (forall s : Scenes.scene,
     map end_coef (Scenes.construct s) = [spec_coefficient s]) /\
  (forall s : Scenes.scene,
     end_coef (Scenes.qubit_call s) <> None <->
     In s [Scenes.Y0; Scenes.Y1; Scenes.Z1]) /\
  filter (fun s => has_coefficient (Scenes.qubit_call s)) Scenes.all =
    [Scenes.Y0; Scenes.Y1; Scenes.Z1].
Proof.
  split; [reflexivity|].
  split.
  { unfold qubit, state_anim; simpl.
    destruct (end_coef a) as [coef|]; simpl; split.
    - intros _. discriminate.
    - intros _. auto.
    - intros [Hbad | [Hbad | []]]; discriminate.
    - intros Hbad. now contradiction Hbad. }
  split.
  { intros coef Hc. unfold final_play, qubit, state_anim, label_position.
    simpl. rewrite Hc. repeat split. }
  split.
  { intros Hc. unfold final_play, qubit, state_anim, label_position.
    simpl. rewrite Hc. repeat split. }
  split.
  { intros s. destruct s; reflexivity. }
  split; [|reflexivity].
  intros s. destruct s; simpl; split; intros Hs;
    try discriminate; try (now contradiction Hs); auto;
    repeat (destruct Hs as [Hs | Hs]; try discriminate); contradiction.
Qed.

(** The coefficient theorem at scene [Y0], with every label one unit
    wide. *)
Lemma coefficient_label_iff_Y0 :
  end_coef (Scenes.qubit_call Scenes.Y0) = Some "i" /\
  final_play (qubit (Scenes.qubit_call Scenes.Y0)) =
    Some (AnimationGroup
            [Transform state_psi state_psi_end; Create state_psi_coef]) /\
  label_text (Scenes.qubit_call Scenes.Y0) state_psi_coef = Some "i" /\
  label_position (fun _ => 1) (Scenes.qubit_call Scenes.Y0) state_psi_coef =
    Some (add (state_psi_end_position (Scenes.qubit_call Scenes.Y0))
            (scale ((1 + 1) * 0.13)
               (add (scale (sin theta) RIGHT) (scale (cos theta) DOWN)))).
Proof.
  split; [reflexivity|].
  destruct (coefficient_label_iff (fun _ => 1) (Scenes.qubit_call Scenes.Y0))
    as (_ & _ & Hsome & _).
  apply (Hsome "i" eq_refl).
Defined.

(** * Further properties *)

(** ** The rotation is an isometry *)

Section IsometryFacts.

Implicit Types u v axis : vec3.

Lemma normalize_nonzero axis :
  0 < norm axis -> dot (normalize axis) (normalize axis) = 1.
Proof.
  intros Hpos. destruct (normalize_cases axis) as [[Hz _] | [_ Hk]];
    [lra | exact Hk].
Qed.

Lemma rotate_preserves_dot (t : R) axis u v :
  0 < norm axis ->
  dot (rotate_about_origin t axis u) (rotate_about_origin t axis v) = dot u v.
Proof.
  intros Hpos. pose proof (normalize_nonzero axis Hpos) as Hk.
  unfold rotate_about_origin, rotation_matrix.
  pose proof (sin2_cos2 t) as Hcs. unfold Rsqr in Hcs.
  set (k := normalize axis) in *.
  set (c := cos t) in *. set (s := sin t) in *.
  unfold dot in Hk.
  unfold mat_vec, dot; simpl. nsatz.
Qed.

Lemma rotate_preserves_norm (t : R) axis v :
  0 < norm axis -> norm (rotate_about_origin t axis v) = norm v.
Proof.
  intros Hpos. unfold norm. now rewrite rotate_preserves_dot.
Qed.

Lemma rotate_origin (t : R) axis : rotate_about_origin t axis (mk 0 0 0) = mk 0 0 0.
Proof.
  apply vec3_eq; unfold rotate_about_origin, mat_vec, dot; simpl; ring.
Qed.

Lemma norm_scale (c : R) v : norm (scale c v) = Rabs c * norm v.
Proof.
  unfold norm.
  replace (dot (scale c v) (scale c v)) with (Rsqr c * dot v v)
    by (unfold dot, scale, Rsqr; simpl; ring).
  rewrite sqrt_mult_alt by apply Rle_0_sqr.
  now rewrite sqrt_Rsqr_abs.
Qed.

(** With cosine one and sine zero the rotation matrix is the identity. *)
Lemma rotate_trivial (t : R) axis v :
  cos t = 1 -> sin t = 0 -> rotate_about_origin t axis v = v.
Proof.
  intros Hc Hs. unfold rotate_about_origin, rotation_matrix.
  rewrite Hc, Hs. apply vec3_eq; unfold mat_vec, dot; simpl; ring.
Qed.

Lemma rotate_full_turn_more (t : R) axis v :
  rotate_about_origin (t + 2 * PI) axis v = rotate_about_origin t axis v.
Proof.
  unfold rotate_about_origin, rotation_matrix.
  rewrite cos_plus, sin_plus, cos_2PI, sin_2PI.
  apply vec3_eq; unfold mat_vec, dot; simpl; ring.
Qed.

Lemma degrees_360 : 360 * DEGREES = 2 * PI.
Proof. unfold DEGREES, TAU. field. Qed.

End IsometryFacts.

(** X1.  For a nonzero rotation axis and every value of the tracker, the
    arrow keeps its tail at the origin and its tip on the unit sphere, and
    the moving label stays at distance 1.25 from the origin. *)
Theorem arrow_stays_on_sphere (a : args) (rot_value : R) :
  0 < norm (rotate_axis a) ->
  vec_start a rot_value = mk 0 0 0 /\
  norm (vec_end a rot_value) = 1 /\
  norm (state_psi_position a rot_value) = 1.25.
Proof.
  intros Hpos.
  split; [apply rotate_origin|].
  assert (Hp : norm (point a) = 1) by apply dot_unit, point_dot.
  split.
  - unfold vec_end. now rewrite rotate_preserves_norm.
  - unfold state_psi_position.
    rewrite rotate_preserves_norm by exact Hpos.
    rewrite norm_scale, Hp, Rabs_right; lra.
Qed.

(** The theorem above at scene [H1] with the tracker at 77. *)
Lemma arrow_stays_on_sphere_H1 :
  0 < norm (rotate_axis (Scenes.qubit_call Scenes.H1)) /\
  vec_start (Scenes.qubit_call Scenes.H1) 77 = mk 0 0 0 /\
  norm (vec_end (Scenes.qubit_call Scenes.H1) 77) = 1 /\
  norm (state_psi_position (Scenes.qubit_call Scenes.H1) 77) = 1.25.
Proof.
  assert (Hpos : 0 < norm (rotate_axis (Scenes.qubit_call Scenes.H1)))
    by (rewrite scene_axis_unit; lra).
  split; [exact Hpos|].
  apply (arrow_stays_on_sphere (Scenes.qubit_call Scenes.H1) 77 Hpos).
Defined.

(** X2.  The updaters start in place and are periodic: with the tracker at
    zero the arrow's tip is the start point and the label is where it was
    first put; a tracker value of 360 brings both back there; and adding
    360 to the tracker changes neither. *)
Theorem updaters_start_in_place (a : args) :
  vec_end a 0 = point a /\
  state_psi_position a 0 = state_psi_start_position a /\
  vec_end a 360 = point a /\
  state_psi_position a 360 = state_psi_start_position a /\
  (forall rot_value : R,
     vec_end a (rot_value + 360) = vec_end a rot_value /\
     state_psi_position a (rot_value + 360) = state_psi_position a rot_value).
Proof.
  unfold vec_end, state_psi_position, state_psi_start_position.
  rewrite degrees_0, degrees_360.
  repeat split.
  - apply rotate_trivial; [apply cos_0 | apply sin_0].
  - apply rotate_trivial; [apply cos_0 | apply sin_0].
  - apply rotate_trivial; [apply cos_2PI | apply sin_2PI].
  - apply rotate_trivial; [apply cos_2PI | apply sin_2PI].
  - rewrite Rmult_plus_distr_r, degrees_360. apply rotate_full_turn_more.
  - rewrite Rmult_plus_distr_r, degrees_360. apply rotate_full_turn_more.
Qed.

(** X3.  At every value of the tracker the moving label sits at 1.25 times
    the arrow's tip. *)
Theorem label_rides_arrow_tip (a : args) (rot_value : R) :
  state_psi_position a rot_value = scale 1.25 (vec_end a rot_value).
Proof.
  unfold state_psi_position, vec_end. apply rotate_scale.
Qed.

(** ** The circle the tip moves on *)

Section CircleFacts.

Implicit Types u v axis : vec3.

Lemma rotate_sub (t : R) axis u v :
  rotate_about_origin t axis (sub u v) =
  sub (rotate_about_origin t axis u) (rotate_about_origin t axis v).
Proof.
  apply vec3_eq; unfold rotate_about_origin, mat_vec, sub, dot; simpl; ring.
Qed.

(** A rotation leaves its unit axis fixed. *)
Lemma rotate_fixes_axis (t : R) axis :
  norm axis = 1 -> rotate_about_origin t axis axis = axis.
Proof.
  intros Hn. rewrite rotate_rodrigues, normalize_unit by exact Hn.
  apply unit_dot in Hn. unfold dot in Hn.
  apply vec3_eq; unfold add, scale, cross, dot; simpl; nsatz.
Qed.

Lemma rotate_fixes_axis_multiple (t c : R) axis :
  norm axis = 1 ->
  rotate_about_origin t axis (scale c axis) = scale c axis.
Proof.
  intros Hn. now rewrite rotate_scale, rotate_fixes_axis.
Qed.

Lemma x_unscaled_sqr_height (a : args) :
  norm (rotate_axis a) = 1 ->
  dot (x_unscaled a) (x_unscaled a) = 1 - arc_height a * arc_height a.
Proof.
  intros Hz. apply unit_dot in Hz. pose proof (point_dot a) as Hp.
  unfold arc_height, x_unscaled, z.
  set (p := point a) in *. set (k := rotate_axis a) in *.
  clearbody p k.
  unfold dot, sub, scale in *; simpl in *. nsatz.
Qed.

Lemma point_on_axis (a : args) :
  r a = 0 -> point a = scale (arc_height a) (z a).
Proof.
  intros Hr. apply norm_zero_iff in Hr.
  unfold x_unscaled, zero in Hr. unfold arc_height.
  apply vec3_eq; unfold sub, scale in *; simpl in *;
    injection Hr as H1 H2 H3; lra.
Qed.

End CircleFacts.

(** X4.  For a unit rotation axis and every value of the tracker, the
    arrow's tip keeps the height [point . z] along the axis and the
    distance [r] from it: it moves on the circle whose radius and height
    the arc glyph is built with. *)
Theorem tip_moves_on_arc_circle (a : args) (rot_value : R) :
  norm (rotate_axis a) = 1 ->
  dot (vec_end a rot_value) (z a) = arc_height a /\
  norm (sub (vec_end a rot_value) (scale (arc_height a) (z a))) = r a.
Proof.
  intros Hz.
  assert (Hpos : 0 < norm (rotate_axis a)) by lra.
  assert (Hfix : rotate_about_origin (rot_value * DEGREES) (rotate_axis a)
                   (z a) = z a) by (apply rotate_fixes_axis, Hz).
  split.
  - unfold vec_end, arc_height. rewrite <- Hfix at 1.
    now apply rotate_preserves_dot.
  - unfold vec_end.
    rewrite <- (rotate_fixes_axis_multiple (rot_value * DEGREES)
                  (arc_height a) (rotate_axis a) Hz) at 1.
    fold (z a). rewrite <- rotate_sub.
    rewrite rotate_preserves_norm by exact Hpos. reflexivity.
Qed.

(** The theorem above at scene [H0] with the tracker at 77. *)
Lemma tip_moves_on_arc_circle_H0 :
  norm (rotate_axis (Scenes.qubit_call Scenes.H0)) = 1 /\
  dot (vec_end (Scenes.qubit_call Scenes.H0) 77)
      (z (Scenes.qubit_call Scenes.H0)) =
    arc_height (Scenes.qubit_call Scenes.H0) /\
  norm (sub (vec_end (Scenes.qubit_call Scenes.H0) 77)
            (scale (arc_height (Scenes.qubit_call Scenes.H0))
                   (z (Scenes.qubit_call Scenes.H0)))) =
    r (Scenes.qubit_call Scenes.H0).
Proof.
  split; [apply scene_axis_unit|].
  apply (tip_moves_on_arc_circle (Scenes.qubit_call Scenes.H0) 77
           (scene_axis_unit Scenes.H0)).
Defined.

(** X5.  For a unit rotation axis the arc's radius [r] and height
    [point . z] satisfy [r^2 + height^2 = 1], so [r] lies between 0 and 1,
    and [r] is the norm of the cross product of the start point and the
    axis. *)
Theorem arc_radius_and_height (a : args) :
  norm (rotate_axis a) = 1 ->
  r a * r a + arc_height a * arc_height a = 1 /\
  0 <= r a <= 1 /\
  r a = norm (cross (point a) (rotate_axis a)).
Proof.
  intros Hz.
  pose proof (x_unscaled_sqr_height a Hz) as Hsq.
  pose proof (norm_sqr (x_unscaled a)) as Hn. fold (r a) in Hn.
  pose proof (norm_nonneg (x_unscaled a)) as H0. fold (r a) in H0.
  split; [lra|].
  split; [split; [exact H0 | nra]|].
  unfold r, norm at 1 2. now rewrite (x_unscaled_sqr a Hz).
Qed.

(** The theorem above at scene [X1]. *)
Lemma arc_radius_and_height_X1 :
  norm (rotate_axis (Scenes.qubit_call Scenes.X1)) = 1 /\
  r (Scenes.qubit_call Scenes.X1) * r (Scenes.qubit_call Scenes.X1) +
    arc_height (Scenes.qubit_call Scenes.X1) *
    arc_height (Scenes.qubit_call Scenes.X1) = 1 /\
  0 <= r (Scenes.qubit_call Scenes.X1) <= 1 /\
  r (Scenes.qubit_call Scenes.X1) =
    norm (cross (point (Scenes.qubit_call Scenes.X1))
                (rotate_axis (Scenes.qubit_call Scenes.X1))).
Proof.
  split; [apply scene_axis_unit|].
  apply (arc_radius_and_height (Scenes.qubit_call Scenes.X1)
           (scene_axis_unit Scenes.X1)).
Defined.

(** X6.  When the start point lies on a unit rotation axis ([r] is zero,
    the case in which the frame is undefined), the arrow and the moving
    label do not move at all, whatever the tracker's value. *)
Theorem start_on_axis_is_stationary (a : args) (rot_value : R) :
  norm (rotate_axis a) = 1 ->
  r a = 0 ->
  vec_end a rot_value = point a /\
  state_psi_position a rot_value = state_psi_start_position a.
Proof.
  intros Hz Hr.
  assert (Hv : vec_end a rot_value = point a).
  { unfold vec_end. rewrite (point_on_axis a Hr). unfold z.
    now apply rotate_fixes_axis_multiple. }
  split; [exact Hv|].
  unfold state_psi_position, state_psi_start_position.
  rewrite rotate_scale. unfold vec_end in Hv. now rewrite Hv.
Qed.

(** The theorem above at scene [Z0] with the tracker at 77. *)
Lemma start_on_axis_is_stationary_Z0 :
  norm (rotate_axis (Scenes.qubit_call Scenes.Z0)) = 1 /\
  r (Scenes.qubit_call Scenes.Z0) = 0 /\
  vec_end (Scenes.qubit_call Scenes.Z0) 77 =
    point (Scenes.qubit_call Scenes.Z0) /\
  state_psi_position (Scenes.qubit_call Scenes.Z0) 77 =
    state_psi_start_position (Scenes.qubit_call Scenes.Z0).
Proof.
  split; [apply scene_axis_unit|].
  split; [apply r_Z0|].
  apply (start_on_axis_is_stationary (Scenes.qubit_call Scenes.Z0) 77
           (scene_axis_unit Scenes.Z0) r_Z0).
Defined.

(** X7.  For a unit rotation axis, a half turn carries the arrow's tip to
    the point opposite on its circle: with the tracker at 180 the tip is
    the start point less twice its part across the axis, at distance [2 r]
    from the start point, and the moving label is [2.5 r] from where it
    started. *)
Theorem half_turn_chord (a : args) :
  norm (rotate_axis a) = 1 ->
  vec_end a 180 = sub (point a) (scale 2 (x_unscaled a)) /\
  norm (sub (vec_end a 180) (point a)) = 2 * r a /\
  norm (sub (state_psi_position a 180) (state_psi_start_position a)) =
    2.5 * r a.
Proof.
  intros Hz.
  assert (Hv : vec_end a 180 = sub (point a) (scale 2 (x_unscaled a))).
  { unfold vec_end. rewrite (rotate_half_turn _ _ Hz).
    apply vec3_eq; unfold x_unscaled, z, sub, scale, dot; simpl; ring. }
  split; [exact Hv|].
  split.
  - rewrite Hv.
    replace (sub (sub (point a) (scale 2 (x_unscaled a))) (point a))
      with (scale (-2) (x_unscaled a))
      by (apply vec3_eq; unfold sub, scale; simpl; ring).
    rewrite norm_scale, Rabs_left by lra. fold (r a). ring.
  - unfold state_psi_position, state_psi_start_position.
    rewrite rotate_scale. fold (vec_end a 180). rewrite Hv.
    replace (sub (scale 1.25 (sub (point a) (scale 2 (x_unscaled a))))
                 (scale 1.25 (point a)))
      with (scale (-2.5) (x_unscaled a))
      by (apply vec3_eq; unfold sub, scale; simpl; lra).
    rewrite norm_scale, Rabs_left by lra. fold (r a). lra.
Qed.

(** The theorem above at scene [Y0]. *)
Lemma half_turn_chord_Y0 :
  norm (rotate_axis (Scenes.qubit_call Scenes.Y0)) = 1 /\
  vec_end (Scenes.qubit_call Scenes.Y0) 180 =
    sub (point (Scenes.qubit_call Scenes.Y0))
        (scale 2 (x_unscaled (Scenes.qubit_call Scenes.Y0))) /\
  norm (sub (vec_end (Scenes.qubit_call Scenes.Y0) 180)
            (point (Scenes.qubit_call Scenes.Y0))) =
    2 * r (Scenes.qubit_call Scenes.Y0) /\
  norm (sub (state_psi_position (Scenes.qubit_call Scenes.Y0) 180)
            (state_psi_start_position (Scenes.qubit_call Scenes.Y0))) =
    2.5 * r (Scenes.qubit_call Scenes.Y0).
Proof.
  split; [apply scene_axis_unit|].
  apply (half_turn_chord (Scenes.qubit_call Scenes.Y0)
           (scene_axis_unit Scenes.Y0)).
Defined.

(** ** The gates on the Bloch sphere *)

Section GateFacts.

Lemma degrees_45 : 45 * DEGREES = PI / 4.
Proof. unfold DEGREES, TAU. field. Qed.

Lemma degrees_30 : 30 * DEGREES = PI / 6.
Proof. unfold DEGREES, TAU. field. Qed.

Lemma point_generic (a : args) :
  start_point a = (45, 45) ->
  point a = mk (1 / 2) (1 / 2) (1 / sqrt 2).
Proof.
  intros Hs. unfold point. rewrite Hs; simpl.
  rewrite degrees_45, cos_PI4, sin_PI4.
  pose proof inv_sqrt2_sqr as Hq.
  apply vec3_eq; simpl; lra.
Qed.

Lemma inv_sqrt2_pos : 0 < 1 / sqrt 2.
Proof.
  apply Rdiv_lt_0_compat; [lra|]. apply sqrt_lt_R0. lra.
Qed.

Lemma scene_point (s : Scenes.scene) :
  point (Scenes.qubit_call s) =
  match s with
  | Scenes.X0 | Scenes.Y0 | Scenes.Z0 | Scenes.H0 => mk 0 0 1
  | Scenes.X1 | Scenes.Y1 | Scenes.Z1 | Scenes.H1 => mk 0 0 (-1)
  | _ => mk (1 / 2) (1 / 2) (1 / sqrt 2)
  end.
Proof.
  destruct s;
    first [apply point_north; reflexivity
          | apply point_south; reflexivity
          | apply point_generic; reflexivity].
Qed.

End GateFacts.

(** X8.  In every scene the half turn about the scene's axis acts on any
    vector as the scene's gate acts on Bloch vectors: X negates the second
    and third coordinates, Y the first and third, Z the first and second,
    and H exchanges the first and third and negates the second.  So the
    arrow ends at the gate's image of the start point, the end label sits
    at 1.25 times it, and a second half turn brings every vector back. *)
Theorem half_turn_is_gate_action (s : Scenes.scene) :
  (forall v : vec3,
     rotate_about_origin (180 * DEGREES)
       (rotate_axis (Scenes.qubit_call s)) v =
     bloch_action (Scenes.gate_of s) v) /\
  vec_end (Scenes.qubit_call s) (rotate_angle (Scenes.qubit_call s)) =
    bloch_action (Scenes.gate_of s) (point (Scenes.qubit_call s)) /\
  state_psi_end_position (Scenes.qubit_call s) =
    scale 1.25 (bloch_action (Scenes.gate_of s) (point (Scenes.qubit_call s))) /\
  (forall v : vec3,
     rotate_about_origin (180 * DEGREES) (rotate_axis (Scenes.qubit_call s))
       (rotate_about_origin (180 * DEGREES)
          (rotate_axis (Scenes.qubit_call s)) v) = v).
Proof.
  assert (Hact : forall v : vec3,
             rotate_about_origin (180 * DEGREES)
               (rotate_axis (Scenes.qubit_call s)) v =
             bloch_action (Scenes.gate_of s) v).
  { intros v. rewrite (rotate_half_turn _ _ (scene_axis_unit s)).
    pose proof inv_sqrt2_sqr as Hq.
    destruct s; apply vec3_eq; unfold sub, scale, dot; simpl;
      set (q := 1 / sqrt 2) in *;
      assert (Hq2 : 2 * (q * q) = 1) by lra;
      clearbody q; clear Hq; nsatz. }
  assert (Hangle : rotate_angle (Scenes.qubit_call s) = 180)
    by (destruct s; reflexivity).
  split; [exact Hact|].
  split; [unfold vec_end; rewrite Hangle; apply Hact|].
  split.
  - unfold state_psi_end_position. rewrite Hangle, rotate_scale.
    now rewrite Hact.
  - intros v. rewrite !Hact.
    destruct s; apply vec3_eq; simpl; ring.
Qed.

Lemma scene_r_above_half (s : Scenes.scene) :
  s <> Scenes.Z0 -> s <> Scenes.Z1 -> 1 / 2 < r (Scenes.qubit_call s).
Proof.
  intros H0 H1.
  pose proof (x_unscaled_sqr_height _ (scene_axis_unit s)) as Hsq.
  pose proof (norm_sqr (x_unscaled (Scenes.qubit_call s))) as Hn.
  pose proof (norm_nonneg (x_unscaled (Scenes.qubit_call s))) as Hr0.
  fold (r (Scenes.qubit_call s)) in Hn, Hr0.
  rewrite <- Hn in Hsq. clear Hn.
  unfold arc_height in Hsq. rewrite scene_point in Hsq.
  pose proof inv_sqrt2_sqr as Hq. pose proof inv_sqrt2_pos as Hpos.
  set (rr := r (Scenes.qubit_call s)) in *. clearbody rr.
  destruct s; try contradiction;
    unfold dot, z in Hsq; simpl in Hsq;
    set (q := 1 / sqrt 2) in *; clearbody q;
    assert (Hq34 : q < 3 / 4) by nra;
    nra.
Qed.

(** X9.  At scene [Z0] the frame [x, y, z] is undefined ([r] is zero).
    At each of the ten scenes other than [Z0] and [Z1], [r] is more than
    one half, so the division is defined, and the frame is a rotation
    matrix. *)
Theorem frame_defined_in_ten_scenes (s : Scenes.scene) :
  (s = Scenes.Z0 ->
   r (Scenes.qubit_call s) = 0 /\ frame (Scenes.qubit_call s) = None) /\
  (s <> Scenes.Z0 -> s <> Scenes.Z1 ->
   1 / 2 < r (Scenes.qubit_call s) /\
   exists M : mat3, frame (Scenes.qubit_call s) = Some M /\ is_rotation M).
Proof.
  split.
  - intros ->. split; [apply r_Z0 | apply frame_none, r_Z0].
  - intros H0 H1.
    pose proof (scene_r_above_half s H0 H1) as Hhalf.
    split; [exact Hhalf|].
    assert (Hr : r (Scenes.qubit_call s) <> 0) by lra.
    pose proof (scene_axis_unit s) as Hz.
    destruct (frame_some _ Hr) as (_ & _ & Hf).
    eexists. split; [exact Hf|].
    apply completed_frame.
    + apply x_scaled_unit, Hr.
    + apply unit_dot, Hz.
    + rewrite dot_scale_l, (x_unscaled_orthogonal _ Hz). ring.
Qed.

(** The theorem above at scene [H], which starts at [45, 45]. *)
Lemma frame_defined_in_ten_scenes_H :
  Scenes.H <> Scenes.Z0 /\
  Scenes.H <> Scenes.Z1 /\
  1 / 2 < r (Scenes.qubit_call Scenes.H) /\
  exists M : mat3,
    frame (Scenes.qubit_call Scenes.H) = Some M /\ is_rotation M.
Proof.
  split; [discriminate|].
  split; [discriminate|].
  apply (proj2 (frame_defined_in_ten_scenes Scenes.H)); discriminate.
Defined.

(** ** Labels *)

(** X10.  The coefficient label is displaced from the end label by 0.13
    times the sum of the two labels' widths, along the unit direction
    [1/2, -sqrt 3 / 2, 0] (right and down, 30 degrees off the vertical);
    the displacement does not depend on the start point, the axis or the
    angle. *)
Theorem coefficient_offset (tex_width : string -> R) (a : args) (coef : string) :
  coef_offset tex_width a coef =
    scale ((tex_width (end_name a) + tex_width coef) * 0.13)
      (mk (1 / 2) (- (sqrt 3 / 2)) 0) /\
  norm (mk (1 / 2) (- (sqrt 3 / 2)) 0) = 1 /\
  norm (coef_offset tex_width a coef) =
    Rabs (tex_width (end_name a) + tex_width coef) * 0.13.
Proof.
  assert (Hdir : norm (mk (1 / 2) (- (sqrt 3 / 2)) 0) = 1).
  { apply dot_unit. unfold dot; simpl.
    pose proof (sqrt_sqrt 3 ltac:(lra)) as Hs. nra. }
  assert (Hoff : coef_offset tex_width a coef =
                 scale ((tex_width (end_name a) + tex_width coef) * 0.13)
                   (mk (1 / 2) (- (sqrt 3 / 2)) 0)).
  { unfold coef_offset, state_psi_coef_position, shift, theta.
    rewrite degrees_30, sin_PI6, cos_PI6.
    apply vec3_eq; unfold sub, add, scale, RIGHT, DOWN; simpl; lra. }
  split; [exact Hoff|]. split; [exact Hdir|].
  rewrite Hoff, norm_scale, Hdir, Rabs_mult.
  rewrite (Rabs_right 0.13) by lra. ring.
Qed.

(** X11.  The pole labels [|0>] and [|1>] are built exactly when
    [show_basis] is set, at heights 1.25 and -1.25 on the third axis.  The
    scenes set it exactly in [X], [Y], [Z] and [H], and these are exactly
    the scenes whose start label does not itself sit at one of those two
    places. *)
Theorem pole_labels_clear_of_start_label
  (tex_width : string -> R) (s : Scenes.scene) :
  (forall a : args,
     (show_basis a = true <->
      label_text a state_0 = Some "|0\rangle" /\
      label_text a state_1 = Some "|1\rangle" /\
      label_position tex_width a state_0 = Some (mk 0 0 1.25) /\
      label_position tex_width a state_1 = Some (mk 0 0 (-1.25))) /\
     (show_basis a = false <->
      label_text a state_0 = None /\ label_text a state_1 = None)) /\
  (show_basis (Scenes.qubit_call s) = true <->
   In s [Scenes.X; Scenes.Y; Scenes.Z; Scenes.H]) /\
  (show_basis (Scenes.qubit_call s) = false <->
   state_psi_start_position (Scenes.qubit_call s) = mk 0 0 1.25 \/
   state_psi_start_position (Scenes.qubit_call s) = mk 0 0 (-1.25)).
Proof.
  split.
  { intros a. unfold label_text, label_position.
    destruct (show_basis a); split; split; try discriminate; try reflexivity.
    - intros _. repeat split;
        f_equal; apply vec3_eq; unfold scale, pole_0, pole_1; simpl; lra.
    - intros [Hbad _]. discriminate.
    - intros (Hbad & _). discriminate.
    - intros _. split; reflexivity. }
  split.
  { destruct s; simpl; split; intros Hs;
      try discriminate; try reflexivity; auto;
      repeat (destruct Hs as [Hs | Hs]; try discriminate); contradiction. }
  unfold state_psi_start_position. rewrite scene_point.
  destruct s; simpl; split; intros Hs;
    try reflexivity;
    try (left; apply vec3_eq; unfold scale; simpl; lra);
    try (right; apply vec3_eq; unfold scale; simpl; lra);
    try discriminate;
    exfalso; destruct Hs as [Hs | Hs];
    unfold scale in Hs; simpl in Hs; injection Hs as H1 H2 H3; lra.
Qed.

(** The theorem above at scene [X0], whose start label sits at the
    north pole label's place. *)
Lemma pole_labels_clear_of_start_label_X0 :
  show_basis (Scenes.qubit_call Scenes.X0) = false /\
  (state_psi_start_position (Scenes.qubit_call Scenes.X0) = mk 0 0 1.25 \/
   state_psi_start_position (Scenes.qubit_call Scenes.X0) = mk 0 0 (-1.25)).
Proof.
  split; [reflexivity|].
  destruct (pole_labels_clear_of_start_label (fun _ => 1) Scenes.X0)
    as (_ & _ & Hstart).
  apply (proj1 Hstart). reflexivity.
Defined.

(** ** The first frame vector and the axis' length *)

Lemma dot_across_axis (u p k : vec3) (h : R) :
  u = sub p (scale h k) -> dot u k = 0 -> dot u p = dot u u.
Proof.
  intros Hu Ho.
  assert (Hp : p = add u (scale h k))
    by (rewrite Hu; apply vec3_eq; unfold add, sub, scale; simpl; ring).
  rewrite Hp at 1. unfold dot, add, scale in *; simpl. nsatz.
Qed.

(** X12.  For a unit rotation axis and a nonzero [r], [r] is positive and
    the frame's first vector [x] is the unit vector from the axis to the
    start point: the start point is [r x + (point . z) z], so the arc,
    which starts at angle zero of radius [r] and height [point . z] in the
    frame, starts at the start point. *)
Theorem frame_x_points_to_start (a : args) :
  norm (rotate_axis a) = 1 ->
  r a <> 0 ->
  0 < r a /\
  exists vx : vec3,
    x a = Some vx /\
    point a = add (scale (r a) vx) (scale (arc_height a) (z a)) /\
    dot vx (point a) = r a.
Proof.
  intros Hz Hr.
  assert (Hpos : 0 < r a).
  { pose proof (norm_nonneg (x_unscaled a)) as H0. fold (r a) in H0. lra. }
  split; [exact Hpos|].
  destruct (frame_some a Hr) as (Hx & _ & _).
  exists (scale (/ r a) (x_unscaled a)).
  split; [exact Hx|].
  assert (Hsplit : point a =
                   add (scale (r a) (scale (/ r a) (x_unscaled a)))
                       (scale (arc_height a) (z a)))
    by apply (point_split a Hr).
  split; [exact Hsplit|].
  rewrite dot_scale_l.
  assert (Hxp : dot (x_unscaled a) (point a) = r a * r a).
  { unfold r. rewrite norm_sqr.
    apply (dot_across_axis (x_unscaled a) (point a) (z a)
             (dot (point a) (z a)) eq_refl (x_unscaled_orthogonal a Hz)). }
  rewrite Hxp. field. exact Hr.
Qed.

(** The theorem above at scene [X0]. *)
Lemma frame_x_points_to_start_X0 :
  norm (rotate_axis (Scenes.qubit_call Scenes.X0)) = 1 /\
  r (Scenes.qubit_call Scenes.X0) <> 0 /\
  0 < r (Scenes.qubit_call Scenes.X0) /\
  exists vx : vec3,
    x (Scenes.qubit_call Scenes.X0) = Some vx /\
    point (Scenes.qubit_call Scenes.X0) =
      add (scale (r (Scenes.qubit_call Scenes.X0)) vx)
          (scale (arc_height (Scenes.qubit_call Scenes.X0))
                 (z (Scenes.qubit_call Scenes.X0))) /\
    dot vx (point (Scenes.qubit_call Scenes.X0)) =
      r (Scenes.qubit_call Scenes.X0).
Proof.
  split; [apply scene_axis_unit|].
  split; [apply r_X0_nonzero|].
  apply (frame_x_points_to_start (Scenes.qubit_call Scenes.X0)
           (scene_axis_unit Scenes.X0) r_X0_nonzero).
Defined.

Section AxisLength.

Lemma normalize_scale (c : R) (v : vec3) :
  0 < c -> 0 < norm v -> normalize (scale c v) = normalize v.
Proof.
  intros Hc Hv. unfold normalize.
  rewrite norm_scale, (Rabs_right c) by lra.
  destruct (Rlt_dec 0 (c * norm v)) as [_ | Hbad];
    [|exfalso; apply Hbad; now apply Rmult_lt_0_compat].
  destruct (Rlt_dec 0 (norm v)) as [_ | Hbad]; [|contradiction].
  apply vec3_eq; unfold scale; simpl; field; split; lra.
Qed.

Lemma rotate_axis_scale (t c : R) (axis v : vec3) :
  0 < c -> 0 < norm axis ->
  rotate_about_origin t (scale c axis) v = rotate_about_origin t axis v.
Proof.
  intros Hc Hn. unfold rotate_about_origin, rotation_matrix.
  now rewrite normalize_scale.
Qed.

End AxisLength.

(** X13.  The arrow and the labels depend on the direction of a nonzero
    rotation axis only: stretching the axis by a positive factor changes
    neither the arrow's tip, nor the moving label's position, nor the end
    label's position. *)
Theorem axis_length_is_immaterial (a : args) (c rot_value : R) :
  0 < c ->
  0 < norm (rotate_axis a) ->
  vec_end (Args (start_point a) (scale c (rotate_axis a)) (rotate_angle a)
             (show_basis a) (start_name a) (end_name a) (end_coef a))
          rot_value = vec_end a rot_value /\
  state_psi_position
    (Args (start_point a) (scale c (rotate_axis a)) (rotate_angle a)
       (show_basis a) (start_name a) (end_name a) (end_coef a))
    rot_value = state_psi_position a rot_value /\
  state_psi_end_position
    (Args (start_point a) (scale c (rotate_axis a)) (rotate_angle a)
       (show_basis a) (start_name a) (end_name a) (end_coef a)) =
  state_psi_end_position a.
Proof.
  intros Hc Hn.
  unfold vec_end, state_psi_position, state_psi_end_position, point; simpl.
  rewrite !(rotate_axis_scale _ c (rotate_axis a) _ Hc Hn).
  repeat split.
Qed.

(** The theorem above at scene [Y1] with the axis doubled and the tracker
    at 77. *)
Lemma axis_length_is_immaterial_Y1 :
  0 < 2 /\
  0 < norm (rotate_axis (Scenes.qubit_call Scenes.Y1)) /\
  vec_end (Args (0, 180) (scale 2 Yaxis) 180 false "|1\rangle" "|0\rangle"
             (Some "-i")) 77 =
    vec_end (Scenes.qubit_call Scenes.Y1) 77.
Proof.
  assert (Hpos : 0 < norm (rotate_axis (Scenes.qubit_call Scenes.Y1)))
    by (rewrite scene_axis_unit; lra).
  split; [lra|]. split; [exact Hpos|].
  apply (axis_length_is_immaterial (Scenes.qubit_call Scenes.Y1) 2 77
           ltac:(lra) Hpos).
Defined.
